(** * AirAware front end: the client-side data-shaping layer

    A shallow embedding of the logic found in the application component
    [App] (selection state, the predict action, the two station
    selectors), the API module it imports as [./api] (the two backend
    calls), [components/map/MapView.js] (markers and route
    polylines) and [components/panels/RoutePanel.js] (the routes summary),
    followed by the properties of that logic.

    JavaScript values coming from the backend are JSON values; they are
    modelled by the inductive type [value].  Expressions that may raise a
    [TypeError] live in the [result] type; event handlers, which also write
    the React state, live in the state-and-exception monad [M]. *)

From Stdlib Require Import String Ascii List Bool ZArith QArith Lia.
Import ListNotations.
Local Close Scope Q_scope.
Local Open Scope string_scope.
Local Open Scope list_scope.
Set Warnings "-register-all".

(** ** Numbers

    Numbers are kept as exact rationals next to the two non-finite kinds
    that matter to the code, [NaN] and the infinities.  Rounding to a
    double and the sign of zero play no role in what follows: numbers are
    only parsed, tested with [isNaN] and handed on. *)

Inductive number : Type :=
| NaN
| Infinity (negative : bool)
| Finite (q : Q).

Definition isNaN (n : number) : bool :=
  match n with NaN => true | _ => false end.

Definition number_is_zero (n : number) : bool :=
  match n with Finite q => Z.eqb (Qnum q) 0 | _ => false end.

(** [decimal m k] is the literal with digits [m] and [k] digits after the
    point, e.g. [decimal 52 1] for [5.2]. *)
Definition decimal (m : Z) (k : nat) : number :=
  Finite (Qred (Qmake m (Z.to_pos (10 ^ Z.of_nat k)))).

Definition integer (z : Z) : number := decimal z 0.

(** ** JSON values *)

Inductive value : Type :=
| VUndefined
| VNull
| VBool (b : bool)
| VNum (n : number)
| VStr (s : string)
| VArr (items : list value)
| VObj (fields : list (string * value)).

(** Exceptions: a [TypeError] raised by the runtime, or the rejection of a
    backend call. *)
Inductive exn : Type :=
| TypeError (msg : string)
| Rejected (reason : string).

Inductive result (A : Type) : Type :=
| Ok (a : A)
| Throw (e : exn).
Arguments Ok {A} a.
Arguments Throw {A} e.

Definition bindR {A B} (c : result A) (k : A -> result B) : result B :=
  match c with Ok a => k a | Throw e => Throw e end.

Notation "'let?' x ':=' c 'in' k" := (bindR c (fun x => k))
  (at level 10, x pattern, c at level 100, k at level 200).

(** [arr.map(f)] on a JSON array: left to right, the first exception
    aborts the whole map. *)
Fixpoint mapR {A B} (f : A -> result B) (l : list A) : result (list B) :=
  match l with
  | [] => Ok []
  | x :: l' =>
      let? y := f x in
      let? ys := mapR f l' in
      Ok (y :: ys)
  end.

(** [arr.map((x, i) => f(x, i))], the index starting at [i]. *)
Fixpoint mapRi {A B} (f : nat -> A -> result B) (i : nat) (l : list A)
  : result (list B) :=
  match l with
  | [] => Ok []
  | x :: l' =>
      let? y := f i x in
      let? ys := mapRi f (S i) l' in
      Ok (y :: ys)
  end.

(** ** Operators of the language *)

(** ToBoolean. *)
Definition truthy (v : value) : bool :=
  match v with
  | VUndefined | VNull => false
  | VBool b => b
  | VNum n => negb (isNaN n || number_is_zero n)
  | VStr s => negb (String.eqb s "")
  | VArr _ | VObj _ => true
  end.

Definition nullish (v : value) : bool :=
  match v with VUndefined | VNull => true | _ => false end.

Definition isArray (v : value) : bool :=
  match v with VArr _ => true | _ => false end.

(** [a || b], [a && b] and [a ?? b] on operands that are already
    evaluated.  Where the right operand can raise, the short circuit is
    written out at the use site ([orElse], [coalesce]). *)
Definition jsOr (a b : value) : value := if truthy a then a else b.
Definition jsAnd (a b : value) : value := if truthy a then b else a.
Definition jsCoalesce (a b : value) : value := if nullish a then b else a.

Definition orElse (a : value) (b : result value) : result value :=
  if truthy a then Ok a else b.
Definition coalesce (a : value) (b : result value) : result value :=
  if nullish a then b else Ok a.

Fixpoint lookup (k : string) (fs : list (string * value)) : value :=
  match fs with
  | [] => VUndefined
  | (k', v) :: fs' => if String.eqb k k' then v else lookup k fs'
  end.

(** [v.k] for one of the data-field names the code reads.  None of them
    names a built-in property, so the read gives [undefined] on a
    primitive or an array, and raises on [null] and [undefined]. *)
Definition getProp (v : value) (k : string) : result value :=
  match v with
  | VUndefined => Throw (TypeError "Cannot read properties of undefined")
  | VNull => Throw (TypeError "Cannot read properties of null")
  | VObj fs => Ok (lookup k fs)
  | _ => Ok VUndefined
  end.

(** [v?.k] *)
Definition getPropOpt (v : value) (k : string) : result value :=
  if nullish v then Ok VUndefined else getProp v k.

(** [x === id] where [id] is a string (the value of a DOM control). *)
Definition strictEqStr (x : value) (id : string) : bool :=
  match x with VStr s => String.eqb s id | _ => false end.

(** ** parseFloat

    On a string: leading white space is skipped and the longest prefix
    that is a decimal literal is read; no such prefix gives [NaN].
    A string is held as the UTF-8 encoding of the JavaScript string, so
    the white space and line terminators of the language beyond ASCII are
    sequences of two or three bytes: U+00A0, U+1680, U+2000 to U+200A,
    U+2028, U+2029, U+202F, U+205F, U+3000 and U+FEFF. *)

Definition is_white (c : ascii) : bool :=
  match nat_of_ascii c with
  | 9 | 10 | 11 | 12 | 13 | 32 => true
  | _ => false
  end%nat.

(** U+00A0 is [C2 A0]. *)
Definition is_white2 (c d : ascii) : bool :=
  match nat_of_ascii c, nat_of_ascii d with
  | 194, 160 => true
  | _, _ => false
  end%nat.

(** U+1680 is [E1 9A 80]; U+2000 to U+200A are [E2 80 80] to [E2 80 8A];
    U+2028, U+2029 and U+202F are [E2 80 A8], [E2 80 A9] and [E2 80 AF];
    U+205F is [E2 81 9F]; U+3000 is [E3 80 80]; U+FEFF is [EF BB BF]. *)
Definition is_white3 (c d e : ascii) : bool :=
  match nat_of_ascii c, nat_of_ascii d, nat_of_ascii e with
  | 225, 154, 128 => true
  | 226, 128, n => ((128 <=? n) && (n <=? 138)) || (n =? 168) || (n =? 169)
                   || (n =? 175)
  | 226, 129, 159 => true
  | 227, 128, 128 => true
  | 239, 187, 191 => true
  | _, _, _ => false
  end%nat.

Fixpoint trimStart (s : string) : string :=
  match s with
  | String c s1 =>
      if is_white c then trimStart s1
      else
        match s1 with
        | String d s2 =>
            if is_white2 c d then trimStart s2
            else
              match s2 with
              | String e s3 => if is_white3 c d e then trimStart s3 else s
              | EmptyString => s
              end
        | EmptyString => s
        end
  | EmptyString => s
  end.

Definition digit_of (c : ascii) : option Z :=
  let n := Z.of_nat (nat_of_ascii c) in
  if (48 <=? n)%Z && (n <=? 57)%Z then Some (n - 48)%Z else None.

(** Reads the longest run of digits: the accumulated value, the number of
    digits read and the rest of the string. *)
Fixpoint read_digits (acc : Z) (cnt : nat) (s : string) : Z * nat * string :=
  match s with
  | String c s' =>
      match digit_of c with
      | Some d => read_digits (10 * acc + d) (S cnt) s'
      | None => (acc, cnt, s)
      end
  | EmptyString => (acc, cnt, s)
  end.

(** The exponent part [e|E (+|-)? digits]; [0] when it is not there or
    is cut short. *)
Definition read_exponent (s : string) : Z :=
  match s with
  | String c s' =>
      if Ascii.eqb c "e" || Ascii.eqb c "E" then
        let '(neg, s'') :=
          match s' with
          | String "-" t => (true, t)
          | String "+" t => (false, t)
          | _ => (false, s')
          end in
        let '(e, cnt, _) := read_digits 0 0 s'' in
        match cnt with
        | O => 0
        | S _ => if neg then (- e) else e
        end
      else 0
  | EmptyString => 0
  end%Z.

Definition scale (m : Z) (e : Z) : Q :=
  if (0 <=? e)%Z then inject_Z (m * 10 ^ e)
  else Qred (Qmake m (Z.to_pos (10 ^ (- e)))).

Definition parse_unsigned (s : string) : option Q :=
  let '(i, ni, r1) := read_digits 0 0 s in
  let '(m, nf, r2) :=
    match r1 with
    | String "." t => read_digits i 0 t
    | _ => (i, O, r1)
    end in
  match (ni + nf)%nat with
  | O => None
  | S _ => Some (scale m (read_exponent r2 - Z.of_nat nf))
  end.

Definition parseFloat_string (s : string) : number :=
  let t := trimStart s in
  let '(neg, u) :=
    match t with
    | String "-" u => (true, u)
    | String "+" u => (false, u)
    | _ => (false, t)
    end in
  if String.prefix "Infinity" u then Infinity neg
  else match parse_unsigned u with
       | Some q => Finite (if neg then Qred (Qopp q) else q)
       | None => NaN
       end.

(** ** Conversion to a string

    [parseFloat(v)] starts by converting [v] to a string, and that
    conversion can raise.  An object is converted by calling its
    [toString]: a record of the backend that has a key of that name holds
    a JSON value there, which cannot be called, and the fallback [valueOf]
    gives no primitive either, so the conversion raises a [TypeError];
    without such a key the inherited method gives [[object Object]].  An
    array is converted by joining the conversions of all its elements with
    commas, [null] and [undefined] counting as nothing, so it raises when
    any element does.  Every other value converts. *)

Fixpoint has_key (k : string) (fs : list (string * value)) : bool :=
  match fs with
  | [] => false
  | (k', _) :: fs' => String.eqb k k' || has_key k fs'
  end.

(** Whether the conversion of [v] to a string returns. *)
Fixpoint stringifies (v : value) : result unit :=
  match v with
  | VObj fs =>
      if has_key "toString" fs
      then Throw (TypeError "Cannot convert object to primitive value")
      else Ok tt
  | VArr l =>
      (fix each (l : list value) : result unit :=
         match l with
         | [] => Ok tt
         | x :: l' => let? _ := stringifies x in each l'
         end) l
  | _ => Ok tt
  end.

(** What [parseFloat] reads off the string of [v], when there is one.  A
    number prints to a literal that reads back as itself; [undefined],
    [null], booleans and objects print to text with no numeric prefix.  In
    the string of an array a comma ends any literal, so only the first
    element is read. *)
Fixpoint numberRead (v : value) : number :=
  match v with
  | VNum n => n
  | VStr s => parseFloat_string s
  | VArr (x :: _) =>
      match x with
      | VUndefined | VNull => NaN
      | _ => numberRead x
      end
  | _ => NaN
  end.

Definition parseFloat (v : value) : result number :=
  let? _ := stringifies v in
  Ok (numberRead v).

(** ** Station fields

    The expressions by which the components read a station record [s].
    They are repeated at each use site in the source; each is written once
    here under the name the source gives its result. *)

(** [s.station_id || s.StationId] *)
Definition stationId (s : value) : result value :=
  let? a := getProp s "station_id" in
  orElse a (getProp s "StationId").

(** [s.StationName || s.station_name || id] *)
Definition stationName (s : value) (id : value) : result value :=
  let? a := getProp s "StationName" in
  let? ab := orElse a (getProp s "station_name") in
  Ok (jsOr ab id).

(** [s.latitude ?? s.Latitude] and [s.longitude ?? s.Longitude] *)
Definition latitudeOf (s : value) : result value :=
  let? a := getProp s "latitude" in
  coalesce a (getProp s "Latitude").

Definition longitudeOf (s : value) : result value :=
  let? a := getProp s "longitude" in
  coalesce a (getProp s "Longitude").

(** [MapView.js], [toLat] and [toLon]. *)
Definition toLat (s : value) : result number :=
  let? v := latitudeOf s in
  parseFloat v.

Definition toLon (s : value) : result number :=
  let? v := longitudeOf s in
  parseFloat v.

(** The canonical record of a station: what [MapView] computes for it on
    lines 46 to 51. *)
Record Station : Type := mkStation {
  st_id : value;
  st_name : value;
  st_lat : number;
  st_lon : number
}.

Definition normalize (s : value) : result Station :=
  let? lat := toLat s in
  let? lon := toLon s in
  let? id := stationId s in
  let? name := stationName s id in
  Ok (mkStation id name lat lon).

(** ** MapView.js *)

(** [([lon, lat]) => [lat, lon]]: the parameter is destructured with the
    iteration protocol, which arrays and strings have and the other JSON
    values lack; a missing position reads as [undefined].  A string is
    iterated by code points: in its UTF-8 form a code point is a leading
    byte with the continuation bytes ([10xxxxxx]) that follow it. *)
Definition is_continuation (c : ascii) : bool :=
  ((128 <=? nat_of_ascii c) && (nat_of_ascii c <? 192))%nat.

Definition continues (s : string) : bool :=
  match s with
  | String d _ => is_continuation d
  | EmptyString => false
  end.

Fixpoint codePoints (s : string) : list string :=
  match s with
  | EmptyString => []
  | String c s' =>
      match codePoints s' with
      | g :: gs =>
          if continues s' then String c g :: gs
          else String c EmptyString :: g :: gs
      | [] => [String c EmptyString]
      end
  end.

Definition chars (s : string) : list value := map VStr (codePoints s).

Definition swapPair (p : value) : result value :=
  match p with
  | VArr l => Ok (VArr [nth 1 l VUndefined; nth 0 l VUndefined])
  | VStr s => Ok (VArr [nth 1 (chars s) VUndefined; nth 0 (chars s) VUndefined])
  | _ => Throw (TypeError "is not iterable")
  end.

(** [r => r.map(([lon, lat]) => [lat, lon])] *)
Definition remapLine (r : value) : result value :=
  match r with
  | VArr pts => let? l := mapR swapPair pts in Ok (VArr l)
  | _ => Throw (TypeError "r.map is not a function")
  end.

Definition polylines (routesResult : value) : result value :=
  let? g := getPropOpt routesResult "ors_geometry" in
  match g with
  | VArr rs => let? ls := mapR remapLine (filter isArray rs) in Ok (VArr ls)
  | _ => Ok (VArr [])
  end.

(** A rendered marker.  [mk_station] is the record [s] that the two
    buttons of the popup hand to [setPicked].  The check marks of those
    buttons ([isStart], [isEnd]) are display text that reads the selection
    under guards and cannot raise; they are left out. *)
Record Marker : Type := mkMarker {
  mk_key : value;
  mk_position : number * number;
  mk_name : value;
  mk_id : value;
  mk_city : value;
  mk_station : value
}.

(** The body of [stations.map((s, idx) => ...)]: [None] is the [null]
    returned for a station without usable coordinates. *)
Definition markerOf (idx : nat) (s : value) : result (option Marker) :=
  let? lat := toLat s in
  let? lon := toLon s in
  if isNaN lat || isNaN lon then Ok None
  else
    let? id := stationId s in
    let? name := stationName s id in
    let? c := getProp s "City" in
    let? city := orElse c (getProp s "city") in
    Ok (Some (mkMarker (jsOr id (VNum (integer (Z.of_nat idx))))
                       (lat, lon) name id city s)).

(** [xs.map(...)] when [xs] may be any value: only arrays have [map]. *)
Definition arrayItems (xs : value) : result (list value) :=
  match xs with
  | VArr l => Ok l
  | _ => Throw (TypeError "map is not a function")
  end.

Definition markers (stations : value) : result (list (option Marker)) :=
  let? l := arrayItems stations in
  mapRi markerOf 0 l.

Record MapViewOut : Type := mkMapView {
  mv_markers : list (option Marker);
  mv_polylines : value
}.

Definition MapView (stations routesResult : value) : result MapViewOut :=
  let? ls := polylines routesResult in
  let? ms := markers stations in
  Ok (mkMapView ms ls).

(** ** RoutePanel.js *)

Record SummaryRow : Type := mkRow {
  idx : value;
  avg : value;
  max : value;
  waypoints : value
}.

(** [Array.isArray(a) ? a[0] : null] *)
Definition firstOrNull (a : value) : value :=
  match a with
  | VArr l => nth 0 l VUndefined
  | _ => VNull
  end.

Definition summaryRow (r : value) : result SummaryRow :=
  let? i := getProp r "route_index" in
  let? a := getProp r "avg_forecast_pm2_5" in
  let? m := getProp r "max_forecast_pm2_5" in
  let? w := getProp r "waypoints" in
  Ok (mkRow i (firstOrNull a) (firstOrNull m) w).

(** [const routes = routesResult.routes || []; routes.map(...)] *)
Definition summary (routesResult : value) : result (list SummaryRow) :=
  let? rs := getProp routesResult "routes" in
  let? l := arrayItems (jsOr rs (VArr [])) in
  mapR summaryRow l.

(** One rendered row: the texts after [Route ], [Avg PM2.5: ],
    [Max PM2.5: ] and [Waypoints: ]. *)
Record RowView : Type := mkRowView {
  rv_route : value;
  rv_avg : value;
  rv_max : value;
  rv_waypoints : value
}.

Definition rowView (r : SummaryRow) : RowView :=
  mkRowView (idx r)
            (jsCoalesce (avg r) (VStr "N/A"))
            (jsCoalesce (max r) (VStr "N/A"))
            (waypoints r).

(** What the panel shows.  [noValid] is the paragraph
    [No valid predictions returned.]; [aiSummary] is the block under
    [AI Summary], there when [gemini_summary] is truthy. *)
Inductive PanelView : Type :=
| NoRouteYet
| RoutesSummary (noValid : bool) (rows : list RowView)
                (aiSummary : option value) (raw : value).

Definition RoutePanel (routesResult : value) : result PanelView :=
  if negb (truthy routesResult) then Ok NoRouteYet
  else
    let? rows := summary routesResult in
    let? g := getProp routesResult "gemini_summary" in
    Ok (RoutesSummary (Nat.eqb (length rows) 0)
                      (map rowView rows)
                      (if truthy g then Some g else None)
                      routesResult).

(** ** api.js

    A call to the backend either answers with a response whose body is
    [data], or fails. *)
Inductive outcome : Type :=
| Responded (data : value)
| Failed (e : exn).

(** [const r = await API.get("/api/stations"); return r.data || [];] *)
Definition fetchStations (o : outcome) : result value :=
  match o with
  | Responded data => Ok (jsOr data (VArr []))
  | Failed e => Throw e
  end.

(** [const r = await API.post("/api/predict-route", ...); return r.data;] *)
Definition predictRoute (o : outcome) : result value :=
  match o with
  | Responded data => Ok data
  | Failed e => Throw e
  end.

(** ** App.js: state *)

Record Picked : Type := mkPicked {
  start : value;
  end_ : value
}.

(** The body of a predict request: the coordinates that the template
    literals [`${sLat},${sLon}`] and [`${dLat},${dLon}`] join. *)
Record Request : Type := mkRequest {
  source : value * value;
  destination : value * value
}.

(** The four state cells of [App], with what the handlers leave in the
    outside world: the alerts shown, the errors logged to the console, and
    the predict requests sent and not yet settled. *)
Record World : Type := mkWorld {
  stations : value;
  loading : bool;
  routesResult : value;
  picked : Picked;
  alerts : list string;
  consoleErrors : list exn;
  outstanding : list Request
}.

Definition initial : World :=
  mkWorld (VArr []) false VNull (mkPicked VNull VNull) [] [] [].

(** Handlers: state passing, with exceptions that keep the writes made
    before them. *)
Definition M (A : Type) : Type := World -> result A * World.

Definition ret {A} (a : A) : M A := fun w => (Ok a, w).

Definition bind {A B} (c : M A) (k : A -> M B) : M B :=
  fun w => match c w with
           | (Ok a, w') => k a w'
           | (Throw e, w') => (Throw e, w')
           end.

Definition lift {A} (r : result A) : M A := fun w => (r, w).

Definition tryCatch {A} (body : M A) (handler : exn -> M A) : M A :=
  fun w => match body w with
           | (Ok a, w') => (Ok a, w')
           | (Throw e, w') => handler e w'
           end.

Declare Scope handler_scope.
Delimit Scope handler_scope with handler.
Notation "x <- c ;; k" := (bind c (fun x => k))
  (at level 61, c at next level, right associativity) : handler_scope.
Notation "c ;; k" := (bind c (fun _ => k))
  (at level 61, right associativity) : handler_scope.

Definition setStations (v : value) : M unit :=
  fun w => (Ok tt, mkWorld v (loading w) (routesResult w) (picked w)
                           (alerts w) (consoleErrors w) (outstanding w)).

Definition setLoading (b : bool) : M unit :=
  fun w => (Ok tt, mkWorld (stations w) b (routesResult w) (picked w)
                           (alerts w) (consoleErrors w) (outstanding w)).

Definition setRoutesResult (v : value) : M unit :=
  fun w => (Ok tt, mkWorld (stations w) (loading w) v (picked w)
                           (alerts w) (consoleErrors w) (outstanding w)).

(** [setPicked(f)] with an updater function. *)
Definition setPicked (f : Picked -> Picked) : M unit :=
  fun w => (Ok tt, mkWorld (stations w) (loading w) (routesResult w)
                           (f (picked w))
                           (alerts w) (consoleErrors w) (outstanding w)).

Definition alert (msg : string) : M unit :=
  fun w => (Ok tt, mkWorld (stations w) (loading w) (routesResult w)
                           (picked w)
                           (alerts w ++ [msg]) (consoleErrors w)
                           (outstanding w)).

Definition console_error (e : exn) : M unit :=
  fun w => (Ok tt, mkWorld (stations w) (loading w) (routesResult w)
                           (picked w)
                           (alerts w) (consoleErrors w ++ [e])
                           (outstanding w)).

Definition send (r : Request) : M unit :=
  fun w => (Ok tt, mkWorld (stations w) (loading w) (routesResult w)
                           (picked w)
                           (alerts w) (consoleErrors w)
                           (outstanding w ++ [r])).

Definition settle : M unit :=
  fun w => (Ok tt, mkWorld (stations w) (loading w) (routesResult w)
                           (picked w)
                           (alerts w) (consoleErrors w)
                           (tl (outstanding w))).

Definition getPicked : M Picked := fun w => (Ok (picked w), w).
Definition getStations : M value := fun w => (Ok (stations w), w).

(** ** App.js: derived values *)

(** [picked.start && picked.end] *)
Definition canPredict (p : Picked) : value := jsAnd (start p) (end_ p).

(** [StationName || station_name || StationId || station_id] of a picked
    station, else the placeholder. *)
Definition pickedLabel (s : value) (placeholder : string) : result value :=
  if truthy s then
    let? a := getProp s "StationName" in
    let? ab := orElse a (getProp s "station_name") in
    let? abc := orElse ab (getProp s "StationId") in
    orElse abc (getProp s "station_id")
  else Ok (VStr placeholder).

Definition startLabel (p : Picked) : result value :=
  pickedLabel (start p) "Select start".

Definition endLabel (p : Picked) : result value :=
  pickedLabel (end_ p) "Select end".

(** ** App.js: the predict action

    [onPredict] is an [async] function with one [await].  [onPredict_start]
    is its body up to the [await], run by the click; it answers with the
    request it has sent, or with [None] when it returned at the guard.
    [onPredict_resume] is the rest, run when the call settles. *)

Local Open Scope handler_scope.

Definition onPredict_start : M (option Request) :=
  p <- getPicked ;;
  if negb (truthy (canPredict p)) then ret None
  else
    setLoading true ;;
    sLat <- lift (latitudeOf (start p)) ;;
    sLon <- lift (longitudeOf (start p)) ;;
    dLat <- lift (latitudeOf (end_ p)) ;;
    dLon <- lift (longitudeOf (end_ p)) ;;
    let req := mkRequest (sLat, sLon) (dLat, dLon) in
    send req ;;
    ret (Some req).

Definition onPredict_resume (o : outcome) : M unit :=
  settle ;;
  tryCatch
    (res <- lift (predictRoute o) ;;
     setRoutesResult res)
    (fun e =>
       console_error e ;;
       alert "Route prediction failed. Check backend /api/predict-route logs.") ;;
  setLoading false.

(** The whole action when nothing else happens while the call is out. *)
Definition onPredict (o : outcome) : M unit :=
  r <- onPredict_start ;;
  match r with
  | None => ret tt
  | Some _ => onPredict_resume o
  end.

(** The effect run once on mount. *)
Definition loadStations (o : outcome) : M unit :=
  tryCatch
    (data <- lift (fetchStations o) ;;
     setStations (jsOr data (VArr [])))
    (fun e =>
       console_error e ;;
       alert "Failed to load stations. Check backend /api/stations.").

(** ** App.js: the selectors *)

(** [stations.find(s => (s.station_id || s.StationId) === id)] *)
Fixpoint findStation (id : string) (l : list value) : result value :=
  match l with
  | [] => Ok VUndefined
  | s :: l' =>
      let? sid := stationId s in
      if strictEqStr sid id then Ok s else findStation id l'
  end.

Definition findIn (id : string) (stations : value) : result value :=
  match stations with
  | VArr l => findStation id l
  | _ => Throw (TypeError "stations.find is not a function")
  end.

Definition withStart (v : value) (p : Picked) : Picked := mkPicked v (end_ p).
Definition withEnd (v : value) (p : Picked) : Picked := mkPicked (start p) v.

(** The [onChange] handlers of the two dropdowns. *)
Definition onChangeStart (id : string) : M unit :=
  ss <- getStations ;;
  st <- lift (findIn id ss) ;;
  setPicked (withStart (jsOr st VNull)).

Definition onChangeEnd (id : string) : M unit :=
  ss <- getStations ;;
  st <- lift (findIn id ss) ;;
  setPicked (withEnd (jsOr st VNull)).

(** The two buttons in the popup of the marker of [s]. *)
Definition onSetStart (s : value) : M unit := setPicked (withStart s).
Definition onSetEnd (s : value) : M unit := setPicked (withEnd s).

Local Close Scope handler_scope.

Record OptionView : Type := mkOption {
  o_key : value;
  o_value : value;
  o_label : value
}.

(** The body of [stations.map((s) => ...)] in either dropdown. *)
Definition optionOf (s : value) : result OptionView :=
  let? id := stationId s in
  let? nm := stationName s id in
  Ok (mkOption id id nm).

Definition stationOptions (stations : value) : result (list OptionView) :=
  let? l := arrayItems stations in
  mapR optionOf l.

Record SelectView : Type := mkSelect {
  sel_value : value;
  sel_placeholder : value;
  sel_options : list OptionView
}.

(** [picked.x ? (picked.x.station_id || picked.x.StationId) : ""] *)
Definition selectedValue (s : value) : result value :=
  if truthy s then stationId s else Ok (VStr "").

Record AppView : Type := mkApp {
  startSelect : SelectView;
  endSelect : SelectView;
  predictDisabled : bool;
  predictText : string;
  mapView : MapViewOut;
  panel : PanelView
}.

Definition App (w : World) : result AppView :=
  let? sl := startLabel (picked w) in
  let? el := endLabel (picked w) in
  let? sv := selectedValue (start (picked w)) in
  let? so := stationOptions (stations w) in
  let? ev := selectedValue (end_ (picked w)) in
  let? eo := stationOptions (stations w) in
  let? mv := MapView (stations w) (routesResult w) in
  let? pv := RoutePanel (routesResult w) in
  Ok (mkApp (mkSelect sv sl so) (mkSelect ev el eo)
            (negb (truthy (canPredict (picked w))) || loading w)
            (if loading w then "Predicting..." else "Predict Route")
            mv pv).

(** ** The application as a state machine

    What can happen to a mounted [App]: the station load settles, the user
    changes a dropdown, presses a popup button of a rendered marker,
    presses the predict button, or an outstanding predict call settles.
    User events need a rendered page.  The click on the predict button is
    taken whether or not the button is disabled: [onPredict] has its own
    guard. *)
Inductive event : Type :=
| StationsSettle (o : outcome)
| ChooseStart (id : string)
| ChooseEnd (id : string)
| MarkerStart (i : nat)
| MarkerEnd (i : nat)
| ClickPredict
| PredictSettle (o : outcome).

Definition markerAt (v : AppView) (i : nat) : option Marker :=
  match nth_error (mv_markers (mapView v)) i with
  | Some (Some m) => Some m
  | _ => None
  end.

(** A user event is taken only on a page that renders; [k] gets what is
    on the page. *)
Definition rendered (w : World) (k : AppView -> option World) : option World :=
  match App w with
  | Ok v => k v
  | Throw _ => None
  end.

Definition handle (ev : event) (w : World) : option World :=
  match ev with
  | StationsSettle o => Some (snd (loadStations o w))
  | ChooseStart id => rendered w (fun _ => Some (snd (onChangeStart id w)))
  | ChooseEnd id => rendered w (fun _ => Some (snd (onChangeEnd id w)))
  | MarkerStart i =>
      rendered w (fun v =>
        match markerAt v i with
        | Some m => Some (snd (onSetStart (mk_station m) w))
        | None => None
        end)
  | MarkerEnd i =>
      rendered w (fun v =>
        match markerAt v i with
        | Some m => Some (snd (onSetEnd (mk_station m) w))
        | None => None
        end)
  | ClickPredict => rendered w (fun _ => Some (snd (onPredict_start w)))
  | PredictSettle o =>
      match outstanding w with
      | [] => None
      | _ :: _ => Some (snd (onPredict_resume o w))
      end
  end.

Fixpoint run (evs : list event) (w : World) : option World :=
  match evs with
  | [] => Some w
  | ev :: evs' =>
      match handle ev w with
      | Some w' => run evs' w'
      | None => None
      end
  end.

Definition reachable (w : World) : Prop :=
  exists evs, run evs initial = Some w.

(** A predict call that answers is the only event that stores a result. *)
Definition stores_result (ev : event) : bool :=
  match ev with
  | PredictSettle (Responded _) => true
  | _ => false
  end.

(** ** Sample data *)

Definition num (z : Z) : value := VNum (integer z).

Definition station_a : value :=
  VObj [("station_id", VStr "A"); ("station_name", VStr "Alpha");
        ("latitude", VStr "12.97"); ("longitude", VStr "77.59")].

Definition station_b : value :=
  VObj [("StationId", VStr "B"); ("StationName", VStr "Beta");
        ("Latitude", VNum (decimal 2861 2)); ("Longitude", VNum (decimal 7721 2))].

(** A station whose latitude is not a number. *)
Definition station_c : value :=
  VObj [("station_id", VStr "C"); ("station_name", VStr "Gamma");
        ("latitude", VStr "n/a"); ("longitude", VStr "80.27")].

Definition sample_stations : value := VArr [station_a; station_c; station_b].

Definition sample_result : value :=
  VObj [("routes",
         VArr [VObj [("route_index", num 1);
                     ("avg_forecast_pm2_5", VArr [VNum (decimal 52 1)]);
                     ("max_forecast_pm2_5", VArr [VNum (decimal 91 1)]);
                     ("waypoints", num 4)]]);
        ("ors_geometry",
         VArr [VArr [VArr [num 10; num 20]; VArr [num 11; num 21]]])].

Definition sample_events : list event :=
  [StationsSettle (Responded sample_stations);
   ChooseStart "A"; MarkerEnd 2; ClickPredict;
   PredictSettle (Responded sample_result)].

Definition sample_world : World :=
  mkWorld sample_stations false sample_result
          (mkPicked station_a station_b) [] [] [].

(** ** The two naming conventions

    A record that carries its four values only under the lower-case
    names, and one that carries them only under the capitalized names. *)
Definition lowerOnly (id name lat lon : value) : value :=
  VObj [("station_id", id); ("station_name", name);
        ("latitude", lat); ("longitude", lon)].

Definition capitalOnly (id name lat lon : value) : value :=
  VObj [("StationId", id); ("StationName", name);
        ("Latitude", lat); ("Longitude", lon)].

(** The display name as the components compute it. *)
Definition displayName (s : value) : result value :=
  let? id := stationId s in
  stationName s id.

(** The display name in the order the specification words it: the
    lower-case field, then the capitalized one, then the identifier.
    Kept apart from [displayName] to compare the two. *)
Definition spec_displayName (s : value) : result value :=
  let? id := stationId s in
  let? a := getProp s "station_name" in
  let? ab := orElse a (getProp s "StationName") in
  Ok (jsOr ab id).

(** A record that has both names. *)
Definition station_two_names : value :=
  VObj [("station_id", VStr "S1");
        ("station_name", VStr "central");
        ("StationName", VStr "CENTRAL")].

(** ** Geometry as pairs

    A coordinate sequence given as a list of pairs, and the JSON array it
    stands for. *)
Definition pairValue (p : value * value) : value := VArr [fst p; snd p].

Definition lineValue (l : list (value * value)) : value :=
  VArr (map pairValue l).

Definition swap (p : value * value) : value * value := (snd p, fst p).

(** ** The summary in the words of the specification

    [spec_first field out]: [out] is the first element of [field] when
    [field] is an array, and null otherwise.  [spec_row r row]: [row]
    carries the index and waypoint count of the entry [r], its average and
    maximum are taken by [spec_first], and a null one is shown as N/A. *)
Definition spec_first (field out : value) : Prop :=
  (forall x xs, field = VArr (x :: xs) -> out = x)
  /\ (isArray field = false -> out = VNull).

Definition spec_row (r : value) (row : SummaryRow) : Prop :=
  exists i a m w,
    getProp r "route_index" = Ok i
    /\ getProp r "avg_forecast_pm2_5" = Ok a
    /\ getProp r "max_forecast_pm2_5" = Ok m
    /\ getProp r "waypoints" = Ok w
    /\ idx row = i
    /\ waypoints row = w
    /\ spec_first a (avg row)
    /\ spec_first m (max row)
    /\ (avg row = VNull -> rv_avg (rowView row) = VStr "N/A")
    /\ (max row = VNull -> rv_max (rowView row) = VStr "N/A").

Definition sample_route : value :=
  VObj [("route_index", num 1);
        ("avg_forecast_pm2_5", VArr [VNum (decimal 52 1)]);
        ("max_forecast_pm2_5", VArr [VNum (decimal 91 1)]);
        ("waypoints", num 4)].

(** ** Predicates on handlers and selections *)

(** The handler [c] leaves the part [proj] of the state as it found it,
    whether it returns or raises. *)
Definition keeps {A B} (proj : World -> B) (c : M A) : Prop :=
  forall w, proj (snd (c w)) = proj w.

(** A selection holds a station record or nothing. *)
Definition stationOrNull (v : value) : Prop :=
  match v with
  | VNull | VObj _ => True
  | _ => False
  end.

Definition selection_ok (p : Picked) : Prop :=
  stationOrNull (start p) /\ stationOrNull (end_ p).

(** Both stations picked, no prediction made yet. *)
Definition picked_world : World :=
  mkWorld sample_stations false VNull (mkPicked station_a station_b) [] [] [].

(** A station whose latitude or longitude does not parse as a number. *)
Definition unparseable (s : value) : Prop :=
  exists lat lon,
    toLat s = Ok lat /\ toLon s = Ok lon /\ isNaN lat || isNaN lon = true.

(** ** Traces

    What a run of events leaves behind, read off the events alone: the
    body of the last predict call that answered, the station list of the
    last station load that answered, and the alerts and console entries of
    the calls that failed. *)
Definition lastResponse (evs : list event) (r : value) : value :=
  fold_left (fun acc ev =>
               match ev with
               | PredictSettle (Responded res) => res
               | _ => acc
               end) evs r.

Definition lastStations (evs : list event) (s : value) : value :=
  fold_left (fun acc ev =>
               match ev with
               | StationsSettle (Responded data) =>
                   if truthy data then data else VArr []
               | _ => acc
               end) evs s.

Definition failureAlert (ev : event) : list string :=
  match ev with
  | StationsSettle (Failed _) =>
      ["Failed to load stations. Check backend /api/stations."]
  | PredictSettle (Failed _) =>
      ["Route prediction failed. Check backend /api/predict-route logs."]
  | _ => []
  end.

Definition failureLog (ev : event) : list exn :=
  match ev with
  | StationsSettle (Failed e) => [e]
  | PredictSettle (Failed e) => [e]
  | _ => []
  end.

(** The page while the sample prediction is still out. *)
Definition waiting_world : World :=
  mkWorld sample_stations true VNull (mkPicked station_a station_b) [] []
          [mkRequest (VStr "12.97", VStr "77.59")
                     (VNum (decimal 2861 2), VNum (decimal 7721 2))].

(** The coordinate that [s.lower ?? s.upper] reads from the fields [fs]. *)
Definition coordinate (lower upper : string) (fs : list (string * value))
  : value :=
  if nullish (lookup lower fs) then lookup upper fs else lookup lower fs.

(** The state after a handler replaced the selection by [p]. *)
Definition withPicked (p : Picked) (w : World) : World :=
  mkWorld (stations w) (loading w) (routesResult w) p
          (alerts w) (consoleErrors w) (outstanding w).

(** Two stations that answer to the same identifier. *)
Definition station_a_again : value :=
  VObj [("StationId", VStr "A"); ("StationName", VStr "Alpha bis");
        ("Latitude", VStr "13.01"); ("Longitude", VStr "77.60")].

(** A prediction result that carries only the geometry [g]. *)
Definition withGeometry (g : value) : value := VObj [("ors_geometry", g)].

(** What the panel shows for a forecast field [a]: its first element,
    or N/A when there is none or it is null or undefined. *)
Definition shownForecast (a : value) : value :=
  match a with
  | VArr (x :: _) => if nullish x then VStr "N/A" else x
  | _ => VStr "N/A"
  end.

(** The events by which the user changes the selection. *)
Definition changes_selection (ev : event) : bool :=
  match ev with
  | ChooseStart _ | ChooseEnd _ | MarkerStart _ | MarkerEnd _ => true
  | _ => false
  end.

(** A station whose latitude cannot be converted to a string. *)
Definition station_d : value :=
  VObj [("station_id", VStr "D");
        ("latitude", VObj [("toString", num 1)]);
        ("longitude", VStr "80.27")].

(** A picked station whose coordinates were parsed without raising. *)
Definition parsedOrNull (s : value) : Prop :=
  match s with
  | VNull => True
  | VObj fs =>
      stringifies (coordinate "latitude" "Latitude" fs) = Ok tt
      /\ stringifies (coordinate "longitude" "Longitude" fs) = Ok tt
  | _ => False
  end.

(** * Properties *)

Example parseFloat_examples :
  parseFloat (VStr "12.97") = Ok (decimal 1297 2) /\
  parseFloat (VStr "  -7.5e1xyz") = Ok (integer (-75)) /\
  parseFloat (VStr ".5") = Ok (decimal 5 1) /\
  parseFloat (VStr "5.") = Ok (integer 5) /\
  parseFloat (VStr "1e") = Ok (integer 1) /\
  parseFloat (VStr "abc") = Ok NaN /\
  parseFloat (VStr "") = Ok NaN /\
  parseFloat (VStr ".") = Ok NaN /\
  parseFloat (VStr "-Infinity") = Ok (Infinity true) /\
  parseFloat VUndefined = Ok NaN /\
  parseFloat VNull = Ok NaN /\
  parseFloat (VObj [("lat", VStr "3.5")]) = Ok NaN /\
  parseFloat (VArr [VStr "3.5"; VNull]) = Ok (decimal 35 1).
Proof. vm_compute. repeat split; reflexivity. Qed.

(** A no-break space (U+00A0) and an em space (U+2003) in front of the
    digits are skipped like a blank. *)
Example parseFloat_unicode_space :
  parseFloat (VStr (String (ascii_of_nat 194) (String (ascii_of_nat 160)
                      (String (ascii_of_nat 226) (String (ascii_of_nat 128)
                         (String (ascii_of_nat 131) "12.5"))))))
  = Ok (decimal 125 1).
Proof. vm_compute. reflexivity. Qed.

(** An object with a key [toString], alone or inside an array, cannot be
    converted to a string. *)
Example parseFloat_raises :
  parseFloat (VObj [("toString", num 1)])
  = Throw (TypeError "Cannot convert object to primitive value")
  /\ parseFloat (VArr [num 3; VObj [("toString", VNull)]])
     = Throw (TypeError "Cannot convert object to primitive value").
Proof. split; reflexivity. Qed.

(** Destructuring a string takes code points, not bytes. *)
Example swapPair_string :
  swapPair (VStr (String (ascii_of_nat 195) (String (ascii_of_nat 169) "x")))
  = Ok (VArr [VStr "x";
              VStr (String (ascii_of_nat 195)
                      (String (ascii_of_nat 169) EmptyString))]).
Proof. reflexivity. Qed.

Example sample_run : run sample_events initial = Some sample_world.
Proof. vm_compute. reflexivity. Qed.

Example sample_view :
  match App sample_world with
  | Ok v =>
      mv_markers (mapView v) =
        [Some (mkMarker (VStr "A") (decimal 1297 2, decimal 7759 2)
                        (VStr "Alpha") (VStr "A") VUndefined station_a);
         None;
         Some (mkMarker (VStr "B") (decimal 2861 2, decimal 7721 2)
                        (VStr "Beta") (VStr "B") VUndefined station_b)]
      /\ map o_label (sel_options (startSelect v)) =
           [VStr "Alpha"; VStr "Gamma"; VStr "Beta"]
      /\ predictDisabled v = false
  | Throw _ => False
  end.
Proof. vm_compute. repeat split; reflexivity. Qed.

(** ** Reading fields *)

Lemma getProp_total (v : value) (k : string) :
  nullish v = false -> exists x, getProp v k = Ok x.
Proof. destruct v; simpl; intros H; try discriminate; eauto. Qed.

Lemma getProp_truthy (v : value) (k : string) :
  truthy v = true -> exists x, getProp v k = Ok x.
Proof. destruct v; simpl; intros H; try discriminate; eauto. Qed.

Lemma getPropOpt_total (v : value) (k : string) :
  exists x, getPropOpt v k = Ok x.
Proof. unfold getPropOpt; destruct v; simpl; eauto. Qed.

(** ** Station normalizer *)

(** C1, as the code has it.  For every station record: the identifier is
    [station_id] when that is truthy and [StationId] otherwise; latitude
    and longitude are parsed from the lower-case field unless it is null or
    undefined, and from the capitalized field otherwise; the display name
    is [StationName] when truthy, else [station_name] when truthy, else the
    identifier; the label of a picked station is the first truthy of
    [StationName], [station_name], [StationId], [station_id]. *)
Theorem field_resolution_order (fs : list (string * value)) :
  let f := fun k => lookup k fs in
  let id := if truthy (f "station_id") then f "station_id" else f "StationId" in
  let name := if truthy (f "StationName") then f "StationName"
              else if truthy (f "station_name") then f "station_name"
              else id in
  let lat := if nullish (f "latitude") then f "Latitude" else f "latitude" in
  let lon := if nullish (f "longitude") then f "Longitude" else f "longitude" in
  stationId (VObj fs) = Ok id
  /\ displayName (VObj fs) = Ok name
  /\ toLat (VObj fs) = parseFloat lat
  /\ toLon (VObj fs) = parseFloat lon
  /\ normalize (VObj fs)
     = (let? la := parseFloat lat in
        let? lo := parseFloat lon in
        Ok (mkStation id name la lo))
  /\ forall placeholder,
       pickedLabel (VObj fs) placeholder =
         Ok (if truthy (f "StationName") then f "StationName"
             else if truthy (f "station_name") then f "station_name"
             else if truthy (f "StationId") then f "StationId"
             else f "station_id").
Proof.
  cbv zeta.
  unfold displayName, normalize, stationName, stationId, toLat, toLon,
    latitudeOf, longitudeOf, pickedLabel, orElse, coalesce, jsOr, bindR,
    getProp.
  cbn [truthy].
  repeat split;
    repeat match goal with
           | |- context [truthy ?x] => destruct (truthy x) eqn:?
           | |- context [nullish ?x] => destruct (nullish x) eqn:?
           end; try reflexivity; try congruence.
Qed.

(** C1, counterexample: on a record with both names the display name is
    the capitalized one, not the lower-case one that the stated order
    would choose. *)
Lemma display_name_prefers_capitalized :
  displayName station_two_names = Ok (VStr "CENTRAL")
  /\ spec_displayName station_two_names = Ok (VStr "central")
  /\ displayName station_two_names <> spec_displayName station_two_names.
Proof. repeat split; try reflexivity. vm_compute. discriminate. Qed.

Lemma toLat_lowerOnly (id name lat lon : value) :
  toLat (lowerOnly id name lat lon) = parseFloat lat.
Proof. destruct lat; reflexivity. Qed.

Lemma toLon_lowerOnly (id name lat lon : value) :
  toLon (lowerOnly id name lat lon) = parseFloat lon.
Proof. destruct lon; reflexivity. Qed.

Lemma toLat_capitalOnly (id name lat lon : value) :
  toLat (capitalOnly id name lat lon) = parseFloat lat.
Proof. reflexivity. Qed.

Lemma toLon_capitalOnly (id name lat lon : value) :
  toLon (capitalOnly id name lat lon) = parseFloat lon.
Proof. reflexivity. Qed.

Lemma normalize_lowerOnly (id name lat lon : value) :
  normalize (lowerOnly id name lat lon)
  = (let? la := parseFloat lat in
     let? lo := parseFloat lon in
     Ok (mkStation (if truthy id then id else VUndefined)
                   (if truthy name then name
                    else if truthy id then id else VUndefined)
                   la lo)).
Proof.
  unfold normalize; rewrite toLat_lowerOnly, toLon_lowerOnly.
  destruct (parseFloat lat); cbn [bindR]; [|reflexivity].
  destruct (parseFloat lon); cbn [bindR]; [|reflexivity].
  unfold lowerOnly, stationName, stationId, orElse, jsOr, getProp.
  cbn [lookup String.eqb Ascii.eqb Bool.eqb truthy bindR].
  destruct (truthy id); cbn [bindR truthy];
    destruct (truthy name) eqn:Hn; rewrite ?Hn; reflexivity.
Qed.

Lemma normalize_capitalOnly (id name lat lon : value) :
  normalize (capitalOnly id name lat lon)
  = (let? la := parseFloat lat in
     let? lo := parseFloat lon in
     Ok (mkStation id (if truthy name then name else id) la lo)).
Proof.
  unfold normalize; rewrite toLat_capitalOnly, toLon_capitalOnly.
  destruct (parseFloat lat); cbn [bindR]; [|reflexivity].
  destruct (parseFloat lon); cbn [bindR]; [|reflexivity].
  unfold capitalOnly, stationName, stationId, orElse, jsOr, getProp.
  cbn [lookup String.eqb Ascii.eqb Bool.eqb truthy bindR].
  destruct (truthy name) eqn:Hn; cbn [bindR truthy]; rewrite ?Hn; reflexivity.
Qed.

(** C7, as the code has it.  A lower-case-only record and a
    capitalized-only record with the same four values normalize to the
    same canonical record exactly when the identifier is truthy or
    undefined; the only other way for the two normalizations to agree is
    that no record is produced, because a coordinate cannot be converted
    to a string and both raise. *)
Theorem convention_independence (id name lat lon : value) :
  normalize (lowerOnly id name lat lon) = normalize (capitalOnly id name lat lon)
  <-> (truthy id = true \/ id = VUndefined
       \/ exists e, normalize (capitalOnly id name lat lon) = Throw e).
Proof.
  rewrite normalize_lowerOnly, normalize_capitalOnly.
  destruct (parseFloat lat) as [la|e1]; cbn [bindR];
    [|split; [intros _; right; right; eauto|reflexivity]].
  destruct (parseFloat lon) as [lo|e2]; cbn [bindR];
    [|split; [intros _; right; right; eauto|reflexivity]].
  split.
  - intros H.
    destruct (truthy id) eqn:Hid; [left; reflexivity|right; left].
    injection H as H _; symmetry; exact H.
  - intros [Hid | [-> | [e He]]]; [rewrite Hid| |discriminate He]; reflexivity.
Qed.

Lemma convention_independence_witness :
  truthy (VStr "A") = true
  /\ normalize (lowerOnly (VStr "A") (VStr "Alpha") (VStr "12.97") (VStr "77.59"))
     = normalize (capitalOnly (VStr "A") (VStr "Alpha") (VStr "12.97") (VStr "77.59")).
Proof.
  split; [reflexivity|].
  apply (proj2 (convention_independence (VStr "A") (VStr "Alpha")
                                        (VStr "12.97") (VStr "77.59"))).
  left; reflexivity.
Defined.

(** C7, counterexample: with an empty identifier the lower-case-only
    record loses it and the capitalized-only record keeps it. *)
Lemma empty_identifier_depends_on_convention :
  normalize (lowerOnly (VStr "") (VStr "Alpha") (num 12) (num 77))
    = Ok (mkStation VUndefined (VStr "Alpha") (integer 12) (integer 77))
  /\ normalize (capitalOnly (VStr "") (VStr "Alpha") (num 12) (num 77))
    = Ok (mkStation (VStr "") (VStr "Alpha") (integer 12) (integer 77))
  /\ normalize (lowerOnly (VStr "") (VStr "Alpha") (num 12) (num 77))
     <> normalize (capitalOnly (VStr "") (VStr "Alpha") (num 12) (num 77)).
Proof. repeat split; try reflexivity. vm_compute. discriminate. Qed.

(** ** Maps that may raise *)

Lemma mapR_Forall2 {A B} (f : A -> result B) (l : list A) (ys : list B) :
  mapR f l = Ok ys -> Forall2 (fun x y => f x = Ok y) l ys.
Proof.
  revert ys; induction l as [|x l IH]; simpl; intros ys H.
  - injection H as <-; constructor.
  - destruct (f x) as [y|] eqn:Hx; simpl in H; [|discriminate].
    destruct (mapR f l) as [ys'|]; simpl in H; [|discriminate].
    injection H as <-; constructor; auto.
Qed.

Lemma mapR_total {A B} (f : A -> result B) (l : list A) :
  (forall x, In x l -> exists y, f x = Ok y) -> exists ys, mapR f l = Ok ys.
Proof.
  induction l as [|x l IH]; simpl; intros H; [eauto|].
  destruct (H x) as [y Hy]; [auto|]; rewrite Hy; simpl.
  destruct IH as [ys Hys]; [auto|]; rewrite Hys; simpl; eauto.
Qed.



Lemma mapRi_nth {A B} (f : nat -> A -> result B) (l : list A) :
  forall i ys j y,
    mapRi f i l = Ok ys -> nth_error ys j = Some y ->
    exists x, nth_error l j = Some x /\ f (j + i) x = Ok y.
Proof.
  induction l as [|x l IH]; simpl; intros i ys j y H Hj.
  - injection H as <-; destruct j; discriminate.
  - destruct (f i x) as [y0|] eqn:Hx; simpl in H; [|discriminate].
    destruct (mapRi f (S i) l) as [t|] eqn:Ht; simpl in H; [|discriminate].
    injection H as <-.
    destruct j as [|j]; simpl in *.
    + injection Hj as <-; eauto.
    + destruct (IH (S i) t j y Ht Hj) as [x' [Hn Hf]].
      exists x'; split; [exact Hn|].
      rewrite Nat.add_succ_r in Hf; exact Hf.
Qed.



(** ** Map overlay builder *)

Lemma remapLine_line (l : list (value * value)) :
  remapLine (lineValue l) = Ok (lineValue (map swap l)).
Proof.
  unfold lineValue, remapLine.
  assert (H : mapR swapPair (map pairValue l) = Ok (map pairValue (map swap l))).
  { induction l as [|p l IH]; simpl; [reflexivity|].
    rewrite IH; reflexivity. }
  rewrite H; reflexivity.
Qed.

Lemma filter_lines (lines : list (list (value * value))) :
  filter isArray (map lineValue lines) = map lineValue lines.
Proof.
  induction lines as [|l lines IH]; simpl; [reflexivity|].
  rewrite IH; reflexivity.
Qed.

Lemma filter_again {A} (f : A -> bool) (l : list A) :
  filter f (filter f l) = filter f l.
Proof.
  induction l as [|x l IH]; simpl; [reflexivity|].
  destruct (f x) eqn:Hx; simpl; [rewrite Hx, IH; reflexivity|exact IH].
Qed.

(** C2.  When the geometry of a prediction result is an array of
    coordinate sequences, each a list of pairs [[lon, lat]], the overlay
    builder gives the same sequences with every pair turned into
    [[lat, lon]]; and geometry [[[[10,20],[11,21]]]] gives
    [[[[20,10],[21,11]]]]. *)
Theorem polylines_swap_axes :
  (forall (routesResult : value) (lines : list (list (value * value))),
      getPropOpt routesResult "ors_geometry" = Ok (VArr (map lineValue lines)) ->
      polylines routesResult = Ok (VArr (map lineValue (map (map swap) lines))))
  /\ polylines
       (VObj [("ors_geometry",
               VArr [VArr [VArr [num 10; num 20]; VArr [num 11; num 21]]])])
     = Ok (VArr [VArr [VArr [num 20; num 10]; VArr [num 21; num 11]]]).
Proof.
  split; [|reflexivity].
  intros rr lines H.
  unfold polylines; rewrite H; simpl.
  rewrite filter_lines.
  assert (Hm : mapR remapLine (map lineValue lines)
               = Ok (map lineValue (map (map swap) lines))).
  { clear H; induction lines as [|l lines IH]; cbn [mapR map]; [reflexivity|].
    rewrite remapLine_line; cbn [bindR]; rewrite IH; reflexivity. }
  rewrite Hm; reflexivity.
Qed.

Lemma polylines_swap_axes_witness :
  getPropOpt sample_result "ors_geometry"
    = Ok (VArr (map lineValue [[(num 10, num 20); (num 11, num 21)]]))
  /\ polylines sample_result
     = Ok (VArr [VArr [VArr [num 20; num 10]; VArr [num 21; num 11]]]).
Proof.
  split; [reflexivity|].
  exact (proj1 polylines_swap_axes sample_result
               [[(num 10, num 20); (num 11, num 21)]] eq_refl).
Defined.

Lemma polylines_array (routesResult : value) (rs : list value) :
  getPropOpt routesResult "ors_geometry" = Ok (VArr rs) ->
  polylines routesResult
    = bindR (mapR remapLine (filter isArray rs)) (fun ls => Ok (VArr ls)).
Proof. intros H; unfold polylines; rewrite H; reflexivity. Qed.

(** C4.  When the geometry field is absent or not an array (or there is no
    result at all) the overlay builder gives the empty set and raises
    nothing.  When it is an array, the entries that are not arrays are
    dropped before the remapping: the overlays are those of the array
    entries alone, one per array entry, and no dropped entry can make the
    builder raise. *)
Theorem polylines_geometry_guard (routesResult : value) :
  ((forall rs, getPropOpt routesResult "ors_geometry" <> Ok (VArr rs)) ->
   polylines routesResult = Ok (VArr []))
  /\ (forall rs, getPropOpt routesResult "ors_geometry" = Ok (VArr rs) ->
        polylines routesResult
          = polylines (VObj [("ors_geometry", VArr (filter isArray rs))])
        /\ (forall ls, polylines routesResult = Ok (VArr ls) ->
              Forall2 (fun r l => remapLine r = Ok l) (filter isArray rs) ls)
        /\ ((forall r, In r rs -> isArray r = true ->
                       exists l, remapLine r = Ok l) ->
            exists ls, polylines routesResult = Ok (VArr ls))).
Proof.
  split.
  - intros Hno.
    destruct (getPropOpt_total routesResult "ors_geometry") as [g Hg].
    unfold polylines; rewrite Hg; cbn [bindR].
    destruct g; try reflexivity.
    exfalso; exact (Hno _ Hg).
  - intros rs Hg.
    rewrite (polylines_array routesResult rs Hg).
    split; [|split].
    + rewrite (polylines_array
                 (VObj [("ors_geometry", VArr (filter isArray rs))])
                 (filter isArray rs) eq_refl).
      rewrite filter_again; reflexivity.
    + intros ls H.
      destruct (mapR remapLine (filter isArray rs)) as [ls'|] eqn:Hm;
        cbn [bindR] in H; [|discriminate].
      injection H as <-; apply mapR_Forall2; exact Hm.
    + intros Hall.
      destruct (mapR_total remapLine (filter isArray rs)) as [ls Hls].
      * intros r Hr; apply filter_In in Hr; destruct Hr; auto.
      * rewrite Hls; cbn [bindR]; eauto.
Qed.

Lemma polylines_geometry_guard_witness :
  polylines (VObj [("routes", VArr [])]) = Ok (VArr [])
  /\ polylines VNull = Ok (VArr [])
  /\ polylines (VObj [("ors_geometry", VStr "none")]) = Ok (VArr [])
  /\ polylines (VObj [("ors_geometry",
                       VArr [VNull; VArr [VArr [num 10; num 20]]; num 7])])
     = polylines (VObj [("ors_geometry", VArr [VArr [VArr [num 10; num 20]]])]).
Proof.
  split; [|split; [|split]].
  - apply (proj1 (polylines_geometry_guard (VObj [("routes", VArr [])]))).
    intros rs H; discriminate H.
  - apply (proj1 (polylines_geometry_guard VNull)).
    intros rs H; discriminate H.
  - apply (proj1 (polylines_geometry_guard (VObj [("ors_geometry", VStr "none")]))).
    intros rs H; discriminate H.
  - exact (proj1 (proj2 (polylines_geometry_guard
                     (VObj [("ors_geometry",
                             VArr [VNull; VArr [VArr [num 10; num 20]]; num 7])]))
                     [VNull; VArr [VArr [num 10; num 20]]; num 7] eq_refl)).
Defined.

(** ** Result summarizer *)

Lemma firstOrNull_spec (a : value) : spec_first a (firstOrNull a).
Proof.
  split.
  - intros x xs ->; reflexivity.
  - destruct a; simpl; intros H; try reflexivity; discriminate.
Qed.

Lemma summaryRow_spec (r : value) :
  nullish r = false -> exists row, summaryRow r = Ok row /\ spec_row r row.
Proof.
  intros Hr.
  destruct (getProp_total r "route_index" Hr) as [i Hi].
  destruct (getProp_total r "avg_forecast_pm2_5" Hr) as [a Ha].
  destruct (getProp_total r "max_forecast_pm2_5" Hr) as [m Hm].
  destruct (getProp_total r "waypoints" Hr) as [w Hw].
  exists (mkRow i (firstOrNull a) (firstOrNull m) w); split.
  - unfold summaryRow; rewrite Hi, Ha, Hm, Hw; reflexivity.
  - exists i, a, m, w; cbn [idx avg max waypoints rowView rv_avg rv_max].
    repeat (split; [first [assumption | reflexivity | apply firstOrNull_spec]|]).
    split; intros ->; reflexivity.
Qed.

(** C5.  For a prediction result whose routes are an array of entries,
    the summarizer gives one row per entry, in order, with the index and
    waypoint count of the entry, and with the average (resp. maximum) equal
    to the first element of the average-forecast (resp. max-forecast) field
    when that field is an array and to null, shown as N/A, otherwise.  The
    entry [{route_index:1, avg_forecast_pm2_5:[5.2],
    max_forecast_pm2_5:[9.1], waypoints:4}] gives the row with index 1,
    average 5.2, maximum 9.1 and 4 waypoints. *)
Theorem summary_rows :
  (forall (routesResult : value) (routes : list value),
      getProp routesResult "routes" = Ok (VArr routes) ->
      (forall r, In r routes -> nullish r = false) ->
      exists rows,
        summary routesResult = Ok rows /\ Forall2 spec_row routes rows)
  /\ summary (VObj [("routes", VArr [sample_route])])
     = Ok [mkRow (num 1) (VNum (decimal 52 1)) (VNum (decimal 91 1)) (num 4)]
  /\ (forall i w, rowView (mkRow i VNull VNull w)
                  = mkRowView i (VStr "N/A") (VStr "N/A") w).
Proof.
  split; [|split; reflexivity].
  intros rr routes Hrs Hall.
  unfold summary; rewrite Hrs; cbn [bindR jsOr truthy arrayItems].
  clear Hrs.
  induction routes as [|r routes IH]; cbn [mapR].
  - exists []; split; [reflexivity|constructor].
  - destruct (summaryRow_spec r) as [row [Hrow Hspec]];
      [apply Hall; left; reflexivity|].
    destruct IH as [rows [Hrows Hf]];
      [intros r' Hr'; apply Hall; right; exact Hr'|].
    exists (row :: rows); split.
    + rewrite Hrow; cbn [bindR]; rewrite Hrows; reflexivity.
    + constructor; assumption.
Qed.

Lemma summary_rows_witness :
  getProp sample_result "routes" = Ok (VArr [sample_route])
  /\ exists rows,
       summary sample_result = Ok rows /\ Forall2 spec_row [sample_route] rows.
Proof.
  split; [reflexivity|].
  apply (proj1 summary_rows sample_result [sample_route] eq_refl).
  intros r [<- | []]; reflexivity.
Defined.

(** ** Handlers: what they leave untouched *)

Section Keeps.
Context {B : Type}.
Variable proj : World -> B.

Lemma keeps_ret {A} (a : A) : keeps proj (ret a).
Proof. intros w; reflexivity. Qed.

Lemma keeps_lift {A} (r : result A) : keeps proj (lift r).
Proof. intros w; reflexivity. Qed.

Lemma keeps_bind {A C} (c : M A) (k : A -> M C) :
  keeps proj c -> (forall a, keeps proj (k a)) -> keeps proj (bind c k).
Proof.
  intros Hc Hk w; unfold bind.
  specialize (Hc w).
  destruct (c w) as [[a|e] w']; simpl in *; [|exact Hc].
  rewrite Hk; exact Hc.
Qed.

Lemma keeps_tryCatch {A} (body : M A) (handler : exn -> M A) :
  keeps proj body -> (forall e, keeps proj (handler e)) ->
  keeps proj (tryCatch body handler).
Proof.
  intros Hb Hh w; unfold tryCatch.
  specialize (Hb w).
  destruct (body w) as [[a|e] w']; simpl in *; [exact Hb|].
  rewrite Hh; exact Hb.
Qed.
End Keeps.

(** Goes through a handler built from [bind], [tryCatch], conditionals
    and writes to cells other than the one of interest. *)
Ltac keeps_step :=
  first
    [ apply keeps_ret
    | apply keeps_lift
    | apply keeps_bind; [|intros ?]
    | apply keeps_tryCatch; [|intros ?]
    | match goal with
      | |- keeps _ (if ?b then _ else _) => destruct b
      | |- keeps _ (match ?x with _ => _ end) => destruct x
      end
    | (intros ?; reflexivity) ].

Ltac keeps_auto := repeat keeps_step.

Lemma loadStations_keeps_result o : keeps routesResult (loadStations o).
Proof. unfold loadStations; keeps_auto. Qed.

Lemma loadStations_keeps_picked o : keeps picked (loadStations o).
Proof. unfold loadStations; keeps_auto. Qed.

Lemma onChangeStart_keeps_result id : keeps routesResult (onChangeStart id).
Proof. unfold onChangeStart; keeps_auto. Qed.

Lemma onChangeEnd_keeps_result id : keeps routesResult (onChangeEnd id).
Proof. unfold onChangeEnd; keeps_auto. Qed.

Lemma onSetStart_keeps_result s : keeps routesResult (onSetStart s).
Proof. unfold onSetStart; keeps_auto. Qed.

Lemma onSetEnd_keeps_result s : keeps routesResult (onSetEnd s).
Proof. unfold onSetEnd; keeps_auto. Qed.

Lemma onPredict_start_keeps_result : keeps routesResult onPredict_start.
Proof. unfold onPredict_start; keeps_auto. Qed.

Lemma onPredict_start_keeps_picked : keeps picked onPredict_start.
Proof. unfold onPredict_start; keeps_auto. Qed.

Lemma onPredict_resume_keeps_picked o : keeps picked (onPredict_resume o).
Proof. unfold onPredict_resume; keeps_auto. Qed.

Lemma onPredict_resume_failed_keeps_result e :
  keeps routesResult (onPredict_resume (Failed e)).
Proof.
  unfold onPredict_resume, predictRoute; keeps_auto.
Qed.

Lemma handle_keeps_result (ev : event) (w w' : World) :
  handle ev w = Some w' -> stores_result ev = false ->
  routesResult w' = routesResult w.
Proof.
  destruct ev; cbn [handle stores_result]; unfold rendered; intros H Hs;
    try (destruct (App w) as [v|]; [|discriminate]);
    try (destruct (markerAt v i); [|discriminate]);
    try (destruct (outstanding w); [discriminate|]);
    injection H as <-.
  - apply loadStations_keeps_result.
  - apply onChangeStart_keeps_result.
  - apply onChangeEnd_keeps_result.
  - apply onSetStart_keeps_result.
  - apply onSetEnd_keeps_result.
  - apply onPredict_start_keeps_result.
  - destruct o; [discriminate|]. apply onPredict_resume_failed_keeps_result.
Qed.

Lemma run_keeps_result (evs : list event) :
  forall w w',
    run evs w = Some w' ->
    forallb (fun ev => negb (stores_result ev)) evs = true ->
    routesResult w' = routesResult w.
Proof.
  induction evs as [|ev evs IH]; cbn [run forallb]; intros w w' H Hs.
  - injection H as <-; reflexivity.
  - apply andb_prop in Hs; destruct Hs as [Hev Hs].
    destruct (handle ev w) as [w1|] eqn:Hh; [|discriminate].
    rewrite (IH w1 w' H Hs).
    apply (handle_keeps_result ev); [exact Hh|].
    destruct (stores_result ev); [discriminate|reflexivity].
Qed.

(** ** The predict action *)

Lemma canPredict_truthy (p : Picked) :
  truthy (canPredict p) = true <->
  truthy (start p) = true /\ truthy (end_ p) = true.
Proof.
  unfold canPredict, jsAnd.
  destruct (truthy (start p)) eqn:Hs; split; intros H.
  - split; [reflexivity|exact H].
  - apply H.
  - rewrite Hs in H; discriminate.
  - destruct H; discriminate.
Qed.

Lemma latitudeOf_total (s : value) :
  truthy s = true -> exists v, latitudeOf s = Ok v.
Proof.
  intros H; unfold latitudeOf, coalesce.
  destruct (getProp_truthy s "latitude" H) as [a ->].
  destruct (getProp_truthy s "Latitude" H) as [b ->].
  cbn [bindR]; destruct (nullish a); eauto.
Qed.

Lemma longitudeOf_total (s : value) :
  truthy s = true -> exists v, longitudeOf s = Ok v.
Proof.
  intros H; unfold longitudeOf, coalesce.
  destruct (getProp_truthy s "longitude" H) as [a ->].
  destruct (getProp_truthy s "Longitude" H) as [b ->].
  cbn [bindR]; destruct (nullish a); eauto.
Qed.

(** With both stations picked, the click sets the loading flag, reads the
    four coordinates without raising and sends one request. *)
Lemma onPredict_start_sends (w : World) :
  truthy (canPredict (picked w)) = true ->
  exists req,
    onPredict_start w
    = (Ok (Some req),
       mkWorld (stations w) true (routesResult w) (picked w)
               (alerts w) (consoleErrors w) (outstanding w ++ [req])).
Proof.
  intros H.
  destruct (proj1 (canPredict_truthy (picked w)) H) as [Hs He].
  destruct (latitudeOf_total _ Hs) as [sLat HsLat].
  destruct (longitudeOf_total _ Hs) as [sLon HsLon].
  destruct (latitudeOf_total _ He) as [dLat HdLat].
  destruct (longitudeOf_total _ He) as [dLon HdLon].
  exists (mkRequest (sLat, sLon) (dLat, dLon)).
  unfold onPredict_start, bind, getPicked.
  rewrite H; cbn [negb setLoading lift picked].
  rewrite HsLat, HsLon, HdLat, HdLon.
  reflexivity.
Qed.

(** Without both stations picked, the click does nothing. *)
Lemma onPredict_start_guard (w : World) :
  truthy (canPredict (picked w)) = false ->
  onPredict_start w = (Ok None, w).
Proof.
  intros H; unfold onPredict_start, bind, getPicked.
  rewrite H; reflexivity.
Qed.

(** The continuation never raises; it ends with the loading flag down. *)
Lemma onPredict_resume_returns (o : outcome) (w : World) :
  exists w', onPredict_resume o w = (Ok tt, w') /\ loading w' = false.
Proof. destruct o; eexists; split; reflexivity. Qed.

Lemma App_predictDisabled (w : World) (v : AppView) :
  App w = Ok v ->
  predictDisabled v = negb (truthy (canPredict (picked w))) || loading w.
Proof.
  unfold App; intros H.
  repeat match type of H with
         | bindR ?c _ = _ => destruct c; cbn [bindR] in H; [|discriminate]
         end.
  injection H as <-; reflexivity.
Qed.

(** C8.  A predict call that answers stores its response as the result,
    whatever was stored before; one that fails leaves the stored result as
    it was; and so does every other event, so that a result stays until the
    next predict call that answers. *)
Theorem stored_result_lifecycle :
  (forall w res,
      routesResult (snd (onPredict_resume (Responded res) w)) = res)
  /\ (forall w e,
      routesResult (snd (onPredict_resume (Failed e) w)) = routesResult w)
  /\ (forall w res,
      truthy (canPredict (picked w)) = true ->
      routesResult (snd (onPredict (Responded res) w)) = res)
  /\ (forall w e,
      routesResult (snd (onPredict (Failed e) w)) = routesResult w)
  /\ (forall ev w w',
      handle ev w = Some w' -> stores_result ev = false ->
      routesResult w' = routesResult w)
  /\ (forall evs w w',
      run evs w = Some w' ->
      forallb (fun ev => negb (stores_result ev)) evs = true ->
      routesResult w' = routesResult w).
Proof.
  split; [reflexivity|].
  split; [reflexivity|].
  split; [|split; [|split]].
  - intros w res H.
    destruct (onPredict_start_sends w H) as [req Hreq].
    unfold onPredict, bind; rewrite Hreq; reflexivity.
  - intros w e.
    assert (K : keeps routesResult (onPredict (Failed e))).
    { unfold onPredict.
      apply keeps_bind; [apply onPredict_start_keeps_result|].
      intros [r|]; [apply onPredict_resume_failed_keeps_result|apply keeps_ret]. }
    apply K.
  - exact handle_keeps_result.
  - intros evs; exact (run_keeps_result evs).
Qed.

Lemma stored_result_lifecycle_witness :
  truthy (canPredict (picked picked_world)) = true
  /\ routesResult (snd (onPredict (Responded sample_result) picked_world))
     = sample_result
  /\ (exists w',
        handle (PredictSettle (Failed (Rejected "timeout")))
               (snd (onPredict_start sample_world)) = Some w'
        /\ routesResult w' = routesResult (snd (onPredict_start sample_world))).
Proof.
  split; [reflexivity|].
  split.
  - apply (proj1 (proj2 (proj2 stored_result_lifecycle))); reflexivity.
  - eexists; split; [reflexivity|].
    apply (proj1 (proj2 (proj2 (proj2 (proj2 stored_result_lifecycle))))
             (PredictSettle (Failed (Rejected "timeout")))
             (snd (onPredict_start sample_world))); reflexivity.
Defined.

(** C10.  Whenever the predict action sends a request (both stations are
    picked) it raises the loading flag, and when the call settles, with an
    answer or with a failure and in whatever state the page then is, the
    continuation returns normally with the loading flag down.  No path of
    the action raises, so none leaves the flag up.  The button is disabled
    while the flag is up and, with both stations still picked, enabled
    once it is down. *)
Theorem loading_flag_reset :
  (forall w,
      truthy (canPredict (picked w)) = true ->
      exists req w1,
        onPredict_start w = (Ok (Some req), w1)
        /\ loading w1 = true
        /\ In req (outstanding w1))
  /\ (forall o w, exists w',
        onPredict_resume o w = (Ok tt, w') /\ loading w' = false)
  /\ (forall o w, exists w',
        onPredict o w = (Ok tt, w')
        /\ (truthy (canPredict (picked w)) = true -> loading w' = false))
  /\ (forall w v,
        App w = Ok v -> loading w = true -> predictDisabled v = true)
  /\ (forall w v,
        App w = Ok v -> loading w = false ->
        truthy (canPredict (picked w)) = true -> predictDisabled v = false).
Proof.
  split; [|split; [|split; [|split]]].
  - intros w H.
    destruct (onPredict_start_sends w H) as [req Hreq].
    eexists; eexists; split; [exact Hreq|].
    split; [reflexivity|].
    cbn [outstanding]; apply in_or_app; right; left; reflexivity.
  - exact onPredict_resume_returns.
  - intros o w.
    destruct (truthy (canPredict (picked w))) eqn:H.
    + destruct (onPredict_start_sends w H) as [req Hreq].
      unfold onPredict, bind; rewrite Hreq.
      destruct (onPredict_resume_returns o
                  (mkWorld (stations w) true (routesResult w) (picked w)
                           (alerts w) (consoleErrors w)
                           (outstanding w ++ [req]))) as [w' [Hr Hl]].
      exists w'; split; [exact Hr|intros _; exact Hl].
    + exists w; split; [|discriminate].
      unfold onPredict, bind; rewrite (onPredict_start_guard w H); reflexivity.
  - intros w v Hv Hl.
    rewrite (App_predictDisabled w v Hv), Hl; apply orb_true_r.
  - intros w v Hv Hl Hc.
    rewrite (App_predictDisabled w v Hv), Hl, Hc; reflexivity.
Qed.

Lemma loading_flag_reset_witness :
  truthy (canPredict (picked picked_world)) = true
  /\ (exists req w1,
        onPredict_start picked_world = (Ok (Some req), w1)
        /\ loading w1 = true
        /\ In req (outstanding w1))
  /\ (exists w',
        onPredict (Failed (Rejected "timeout")) picked_world = (Ok tt, w')
        /\ (truthy (canPredict (picked picked_world)) = true ->
            loading w' = false)).
Proof.
  split; [reflexivity|].
  split.
  - apply (proj1 loading_flag_reset picked_world); reflexivity.
  - apply (proj1 (proj2 (proj2 loading_flag_reset))).
Defined.

(** ** What a rendered page is made of *)

Ltac step_bindR H :=
  repeat match type of H with
         | bindR ?c _ = _ =>
             let E := fresh "E" in
             destruct c eqn:E; cbn [bindR] in H; [|discriminate]
         end.

Lemma MapView_parts (ss rr : value) (mv : MapViewOut) :
  MapView ss rr = Ok mv ->
  markers ss = Ok (mv_markers mv) /\ polylines rr = Ok (mv_polylines mv).
Proof.
  unfold MapView; intros H; step_bindR H.
  injection H as <-; split; reflexivity.
Qed.

Lemma App_parts (w : World) (v : AppView) :
  App w = Ok v ->
  stationOptions (stations w) = Ok (sel_options (startSelect v))
  /\ stationOptions (stations w) = Ok (sel_options (endSelect v))
  /\ markers (stations w) = Ok (mv_markers (mapView v))
  /\ polylines (routesResult w) = Ok (mv_polylines (mapView v))
  /\ RoutePanel (routesResult w) = Ok (panel v).
Proof.
  unfold App; intros H; step_bindR H.
  injection H as <-; cbn.
  destruct (MapView_parts _ _ _ E4) as [Hm Hp].
  repeat split; assumption.
Qed.

(** ** Selection state *)

Lemma stationOrNull_truthy (v : value) :
  stationOrNull v -> (truthy v = true <-> v <> VNull).
Proof.
  destruct v; simpl; intros H; try contradiction; split; intros H';
    try reflexivity; try discriminate; congruence.
Qed.

Lemma stationId_not_object (s x : value) :
  (forall fs, s <> VObj fs) -> stationId s = Ok x -> x = VUndefined.
Proof.
  intros Hs; destruct s; cbn; intros H;
    try discriminate; try (injection H as <-; reflexivity).
  exfalso; apply (Hs fields); reflexivity.
Qed.

Lemma findStation_found (id : string) (l : list value) (st : value) :
  findStation id l = Ok st -> st = VUndefined \/ exists fs, st = VObj fs.
Proof.
  induction l as [|s l IH]; cbn [findStation]; intros H.
  - injection H as <-; left; reflexivity.
  - destruct (stationId s) as [sid|] eqn:Hid; cbn [bindR] in H; [|discriminate].
    destruct (strictEqStr sid id) eqn:Heq; [|exact (IH H)].
    injection H as <-; right.
    destruct s; try (eexists; reflexivity);
      (apply stationId_not_object in Hid;
       [subst sid; discriminate Heq|intros fs' Hc; discriminate Hc]).
Qed.

Lemma chosen_stationOrNull (id : string) (ss st : value) :
  findIn id ss = Ok st -> stationOrNull (jsOr st VNull).
Proof.
  destruct ss; cbn [findIn]; try discriminate; intros H.
  destruct (findStation_found _ _ _ H) as [-> | [fs ->]]; exact I.
Qed.

Lemma onChangeStart_selection (id : string) (w : World) :
  selection_ok (picked w) -> selection_ok (picked (snd (onChangeStart id w))).
Proof.
  intros [Hs He]; unfold onChangeStart, bind, getStations, lift, setPicked.
  destruct (findIn id (stations w)) as [st|] eqn:Hf; cbn; [|split; assumption].
  split; [exact (chosen_stationOrNull _ _ _ Hf)|exact He].
Qed.

Lemma onChangeEnd_selection (id : string) (w : World) :
  selection_ok (picked w) -> selection_ok (picked (snd (onChangeEnd id w))).
Proof.
  intros [Hs He]; unfold onChangeEnd, bind, getStations, lift, setPicked.
  destruct (findIn id (stations w)) as [st|] eqn:Hf; cbn; [|split; assumption].
  split; [exact Hs|exact (chosen_stationOrNull _ _ _ Hf)].
Qed.

(** Only records get a marker: anything else has no latitude to parse. *)
Lemma markerOf_station (i : nat) (s : value) (m : Marker) :
  markerOf i s = Ok (Some m) -> mk_station m = s /\ exists fs, s = VObj fs.
Proof.
  unfold markerOf; intros H.
  destruct s; try discriminate H.
  step_bindR H.
  destruct (isNaN a || isNaN a0); [discriminate|].
  step_bindR H.
  injection H as <-; split; [reflexivity|eexists; reflexivity].
Qed.

Lemma markerAt_station (w : World) (v : AppView) (i : nat) (m : Marker) :
  App w = Ok v -> markerAt v i = Some m -> stationOrNull (mk_station m).
Proof.
  intros Hv Hm.
  destruct (App_parts w v Hv) as (_ & _ & Hms & _).
  unfold markerAt in Hm.
  destruct (nth_error (mv_markers (mapView v)) i) as [[m'|]|] eqn:Hn;
    try discriminate.
  injection Hm as ->.
  unfold markers in Hms.
  destruct (arrayItems (stations w)) as [l|]; cbn [bindR] in Hms; [|discriminate].
  destruct (mapRi_nth _ _ _ _ _ _ Hms Hn) as [s [_ Hs]].
  destruct (markerOf_station _ _ _ Hs) as [-> [fs ->]]; exact I.
Qed.

Lemma handle_selection (ev : event) (w w' : World) :
  handle ev w = Some w' -> selection_ok (picked w) -> selection_ok (picked w').
Proof.
  destruct ev; cbn [handle]; unfold rendered; intros H Hok;
    try (destruct (App w) as [v|] eqn:Hv; [|discriminate]);
    try (destruct (markerAt v i) as [m|] eqn:Hm; [|discriminate]);
    try (destruct (outstanding w); [discriminate|]);
    injection H as <-.
  - rewrite loadStations_keeps_picked; exact Hok.
  - apply onChangeStart_selection; exact Hok.
  - apply onChangeEnd_selection; exact Hok.
  - destruct Hok as [_ He]; split; [|exact He].
    exact (markerAt_station w v i m Hv Hm).
  - destruct Hok as [Hs _]; split; [exact Hs|].
    exact (markerAt_station w v i m Hv Hm).
  - rewrite onPredict_start_keeps_picked; exact Hok.
  - rewrite onPredict_resume_keeps_picked; exact Hok.
Qed.

Lemma run_selection (evs : list event) :
  forall w w',
    run evs w = Some w' -> selection_ok (picked w) -> selection_ok (picked w').
Proof.
  induction evs as [|ev evs IH]; cbn [run]; intros w w' H Hok.
  - injection H as <-; exact Hok.
  - destruct (handle ev w) as [w1|] eqn:Hh; [|discriminate].
    exact (IH w1 w' H (handle_selection ev w w1 Hh Hok)).
Qed.

Lemma reachable_selection (w : World) :
  reachable w -> selection_ok (picked w).
Proof.
  intros [evs H]; apply (run_selection evs initial w H); split; exact I.
Qed.

Lemma canPredict_selection (p : Picked) :
  selection_ok p ->
  (truthy (canPredict p) = true <-> start p <> VNull /\ end_ p <> VNull).
Proof.
  intros [Hs He].
  rewrite canPredict_truthy.
  rewrite (stationOrNull_truthy _ Hs), (stationOrNull_truthy _ He).
  reflexivity.
Qed.

(** C3.  For every selection state, that is a start and an end that are
    each a station record or null, [canPredict] is truthy if and only if
    both the start and the end selection are non-null; and every state
    the page can reach has such a selection, so that the equivalence holds
    there. *)
Theorem canPredict_iff_both_selected :
  (forall p,
      selection_ok p ->
      (truthy (canPredict p) = true <-> start p <> VNull /\ end_ p <> VNull))
  /\ (forall w,
      reachable w ->
      selection_ok (picked w)
      /\ (truthy (canPredict (picked w)) = true
          <-> start (picked w) <> VNull /\ end_ (picked w) <> VNull)).
Proof.
  split; [exact canPredict_selection|].
  intros w Hr.
  pose proof (reachable_selection w Hr) as Hok.
  split; [exact Hok|exact (canPredict_selection _ Hok)].
Qed.

Lemma canPredict_iff_both_selected_witness :
  reachable sample_world
  /\ (truthy (canPredict (picked sample_world)) = true
      <-> start (picked sample_world) <> VNull
          /\ end_ (picked sample_world) <> VNull)
  /\ selection_ok (mkPicked station_a VNull)
  /\ (truthy (canPredict (mkPicked station_a VNull)) = true
      <-> station_a <> VNull /\ VNull <> VNull).
Proof.
  assert (H : reachable sample_world).
  { exists sample_events; vm_compute; reflexivity. }
  split; [exact H|].
  split; [exact (proj2 (proj2 canPredict_iff_both_selected sample_world H))|].
  assert (K : selection_ok (mkPicked station_a VNull)) by (split; exact I).
  split; [exact K|].
  exact (proj1 canPredict_iff_both_selected (mkPicked station_a VNull) K).
Defined.

(** ** Stations without usable coordinates *)

Lemma stationId_total (s : value) :
  nullish s = false -> exists id, stationId s = Ok id.
Proof.
  intros H; unfold stationId, orElse.
  destruct (getProp_total s "station_id" H) as [a ->].
  destruct (getProp_total s "StationId" H) as [b ->].
  cbn [bindR]; destruct (truthy a); eauto.
Qed.

Lemma stationName_total (s id : value) :
  nullish s = false -> exists nm, stationName s id = Ok nm.
Proof.
  intros H; unfold stationName, orElse.
  destruct (getProp_total s "StationName" H) as [a ->].
  destruct (getProp_total s "station_name" H) as [b ->].
  cbn [bindR]; destruct (truthy a); cbn [bindR]; eauto.
Qed.

Lemma optionOf_total (s : value) :
  nullish s = false -> exists o, optionOf s = Ok o.
Proof.
  intros H; unfold optionOf.
  destruct (stationId_total s H) as [id ->]; cbn [bindR].
  destruct (stationName_total s id H) as [nm ->]; cbn [bindR]; eauto.
Qed.


Lemma markerOf_unparseable (s : value) (i : nat) :
  unparseable s -> markerOf i s = Ok None.
Proof.
  intros (lat & lon & Hlat & Hlon & H).
  unfold markerOf; rewrite Hlat, Hlon; cbn [bindR]; rewrite H; reflexivity.
Qed.




(** ** Result panel *)

(** C6.  With no result stored, as at the start and for as long as no
    predict call has answered, the panel shows the "no route predicted
    yet" state.  With a stored result object whose routes are an empty
    array (or missing) it shows the routes summary with the "no valid
    predictions" paragraph and no row.  The two are different states: the
    first is shown exactly for a falsy result, and in the second the
    paragraph is there exactly when there is no row. *)
Theorem panel_states :
  RoutePanel (routesResult initial) = Ok NoRouteYet
  /\ (forall evs w,
        run evs initial = Some w ->
        forallb (fun ev => negb (stores_result ev)) evs = true ->
        RoutePanel (routesResult w) = Ok NoRouteYet)
  /\ (forall fs,
        lookup "routes" fs = VArr [] \/ truthy (lookup "routes" fs) = false ->
        exists ai,
          RoutePanel (VObj fs) = Ok (RoutesSummary true [] ai (VObj fs))
          /\ RoutePanel (VObj fs) <> RoutePanel (routesResult initial))
  /\ (forall rr, RoutePanel rr = Ok NoRouteYet <-> truthy rr = false)
  /\ (forall rr noValid rows ai raw,
        RoutePanel rr = Ok (RoutesSummary noValid rows ai raw) ->
        noValid = true <-> rows = []).
Proof.
  split; [reflexivity|].
  split; [|split; [|split]].
  - intros evs w Hrun Hno.
    rewrite (run_keeps_result evs initial w Hrun Hno); reflexivity.
  - intros fs Hr.
    assert (Hs : summary (VObj fs) = Ok []).
    { unfold summary, jsOr; cbn [getProp bindR].
      destruct Hr as [-> | ->]; reflexivity. }
    eexists; split.
    + unfold RoutePanel; cbn [truthy negb]; rewrite Hs; reflexivity.
    + unfold RoutePanel; cbn [truthy negb]; rewrite Hs; discriminate.
  - intros rr; unfold RoutePanel; destruct (truthy rr); cbn [negb].
    + split; [|discriminate].
      destruct (summary rr); cbn [bindR]; [|discriminate].
      destruct (getProp rr "gemini_summary"); discriminate.
    + split; reflexivity.
  - intros rr noValid rows ai raw; unfold RoutePanel.
    destruct (truthy rr); cbn [negb]; [|discriminate].
    destruct (summary rr) as [l|]; cbn [bindR]; [|discriminate].
    destruct (getProp rr "gemini_summary"); cbn [bindR]; [|discriminate].
    intros H; injection H as <- <- _ _.
    destruct l; cbn; split; intros H; try reflexivity; discriminate.
Qed.

Lemma panel_states_witness :
  lookup "routes" [("routes", VArr [])] = VArr []
  /\ exists ai,
       RoutePanel (VObj [("routes", VArr [])])
       = Ok (RoutesSummary true [] ai (VObj [("routes", VArr [])]))
       /\ RoutePanel (VObj [("routes", VArr [])])
          <> RoutePanel (routesResult initial).
Proof.
  split; [reflexivity|].
  apply (proj1 (proj2 (proj2 panel_states)) [("routes", VArr [])]).
  left; reflexivity.
Defined.

(** * Further properties of the code *)

(** ** The station load *)

(** A station load that answers stores the body when it is truthy and
    the empty list otherwise, and leaves every other cell alone. *)
Lemma stations_after_load (data : value) (w : World) :
  loadStations (Responded data) w
  = (Ok tt,
     mkWorld (if truthy data then data else VArr [])
             (loading w) (routesResult w) (picked w)
             (alerts w) (consoleErrors w) (outstanding w)).
Proof.
  unfold loadStations, tryCatch, bind, lift, fetchStations, setStations, jsOr.
  destruct (truthy data) eqn:H; cbn [truthy]; [rewrite H|]; reflexivity.
Qed.

(** A station load that fails is caught: the handler returns normally,
    the cells stay as they were, the error is logged and one alert is
    shown. *)
Lemma stations_load_failure (e : exn) (w : World) :
  loadStations (Failed e) w
  = (Ok tt,
     mkWorld (stations w) (loading w) (routesResult w) (picked w)
             (alerts w ++ ["Failed to load stations. Check backend /api/stations."])
             (consoleErrors w ++ [e]) (outstanding w)).
Proof. reflexivity. Qed.

Lemma handle_stations (ev : event) (w w' : World) :
  handle ev w = Some w' ->
  stations w' = match ev with
                | StationsSettle (Responded data) =>
                    if truthy data then data else VArr []
                | _ => stations w
                end.
Proof.
  destruct ev; cbn [handle]; unfold rendered; intros H;
    try (destruct (App w) as [v|]; [|discriminate]);
    try (destruct (markerAt v i); [|discriminate]);
    try (destruct (outstanding w); [discriminate|]);
    injection H as <-.
  - destruct o; [rewrite stations_after_load|]; reflexivity.
  - assert (K : keeps stations (onChangeStart id))
      by (unfold onChangeStart; keeps_auto). apply K.
  - assert (K : keeps stations (onChangeEnd id))
      by (unfold onChangeEnd; keeps_auto). apply K.
  - reflexivity.
  - reflexivity.
  - assert (K : keeps stations onPredict_start)
      by (unfold onPredict_start; keeps_auto). apply K.
  - assert (K : keeps stations (onPredict_resume o))
      by (unfold onPredict_resume; keeps_auto). apply K.
Qed.

(** X1.  After any run of events the station list is the body of the last
    station load that answered (the empty list for a falsy body), and the
    list the run started with when none did: no other event touches it. *)
Theorem stations_last_load (evs : list event) :
  forall w w', run evs w = Some w' -> stations w' = lastStations evs (stations w).
Proof.
  induction evs as [|ev evs IH]; cbn [run]; intros w w' H.
  - injection H as <-; reflexivity.
  - destruct (handle ev w) as [w1|] eqn:Hh; [|discriminate].
    rewrite (IH w1 w' H), (handle_stations ev w w1 Hh).
    unfold lastStations; cbn [fold_left].
    destruct ev as [[data|e]| | | | | |[res|e]]; reflexivity.
Qed.

Lemma stations_last_load_witness :
  run sample_events initial = Some sample_world
  /\ stations sample_world = lastStations sample_events (stations initial).
Proof.
  assert (H : run sample_events initial = Some sample_world)
    by (vm_compute; reflexivity).
  split; [exact H|].
  exact (stations_last_load sample_events initial sample_world H).
Defined.

Lemma handle_stations_truthy (ev : event) (w w' : World) :
  handle ev w = Some w' ->
  truthy (stations w) = true -> truthy (stations w') = true.
Proof.
  intros H Ht; rewrite (handle_stations ev w w' H).
  destruct ev as [[data|e]| | | | | |[res|e]]; try exact Ht.
  destruct (truthy data) eqn:Hd; [exact Hd|reflexivity].
Qed.

(** X2.  In every state the page can reach the station list is truthy:
    it is never null, undefined or another falsy value, whatever the
    backend answered. *)
Theorem stations_never_falsy (w : World) :
  reachable w -> truthy (stations w) = true.
Proof.
  intros [evs H].
  assert (G : forall evs w0 w1,
             run evs w0 = Some w1 ->
             truthy (stations w0) = true -> truthy (stations w1) = true).
  { clear; induction evs as [|ev evs IH]; cbn [run]; intros w0 w1 H Ht.
    - injection H as <-; exact Ht.
    - destruct (handle ev w0) as [w2|] eqn:Hh; [|discriminate].
      exact (IH w2 w1 H (handle_stations_truthy ev w0 w2 Hh Ht)). }
  exact (G evs initial w H eq_refl).
Qed.

Lemma stations_never_falsy_witness :
  reachable (snd (loadStations (Responded VNull) initial))
  /\ truthy (stations (snd (loadStations (Responded VNull) initial))) = true.
Proof.
  assert (H : reachable (snd (loadStations (Responded VNull) initial))).
  { exists [StationsSettle (Responded VNull)]; reflexivity. }
  split; [exact H|].
  exact (stations_never_falsy _ H).
Defined.

(** ** Failures and what the user is told *)

Lemma handle_alerts (ev : event) (w w' : World) :
  handle ev w = Some w' ->
  alerts w' = alerts w ++ failureAlert ev
  /\ consoleErrors w' = consoleErrors w ++ failureLog ev.
Proof.
  destruct ev; cbn [handle failureAlert failureLog]; unfold rendered; intros H;
    try (destruct (App w) as [v|]; [|discriminate]);
    try (destruct (markerAt v i); [|discriminate]);
    try (destruct (outstanding w); [discriminate|]);
    injection H as <-; rewrite ?app_nil_r.
  - destruct o; [rewrite stations_after_load|];
      cbn; rewrite ?app_nil_r; split; reflexivity.
  - split; [assert (K : keeps alerts (onChangeStart id))
              by (unfold onChangeStart; keeps_auto)
           |assert (K : keeps consoleErrors (onChangeStart id))
              by (unfold onChangeStart; keeps_auto)]; apply K.
  - split; [assert (K : keeps alerts (onChangeEnd id))
              by (unfold onChangeEnd; keeps_auto)
           |assert (K : keeps consoleErrors (onChangeEnd id))
              by (unfold onChangeEnd; keeps_auto)]; apply K.
  - split; reflexivity.
  - split; reflexivity.
  - split; [assert (K : keeps alerts onPredict_start)
              by (unfold onPredict_start; keeps_auto)
           |assert (K : keeps consoleErrors onPredict_start)
              by (unfold onPredict_start; keeps_auto)]; apply K.
  - destruct o; cbn; rewrite ?app_nil_r; split; reflexivity.
Qed.

(** X3.  Over any run of events, the alerts shown are exactly one per
    backend call that failed, in order and with the message of the call
    (station load or route prediction), and the console holds exactly the
    errors of those calls: a call that answers and a user action never
    alert, and no failure goes unreported. *)
Theorem failures_reported_once (evs : list event) :
  forall w w',
    run evs w = Some w' ->
    alerts w' = alerts w ++ flat_map failureAlert evs
    /\ consoleErrors w' = consoleErrors w ++ flat_map failureLog evs.
Proof.
  induction evs as [|ev evs IH]; cbn [run flat_map]; intros w w' H.
  - injection H as <-; rewrite !app_nil_r; split; reflexivity.
  - destruct (handle ev w) as [w1|] eqn:Hh; [|discriminate].
    destruct (IH w1 w' H) as [Ha Hc].
    destruct (handle_alerts ev w w1 Hh) as [Ha1 Hc1].
    rewrite Ha, Hc, Ha1, Hc1, <- !app_assoc; split; reflexivity.
Qed.

Lemma failures_reported_once_witness :
  run [ClickPredict; PredictSettle (Failed (Rejected "timeout"))] picked_world
  = Some (mkWorld sample_stations false VNull (mkPicked station_a station_b)
            ["Route prediction failed. Check backend /api/predict-route logs."]
            [Rejected "timeout"] [])
  /\ alerts (mkWorld sample_stations false VNull (mkPicked station_a station_b)
               ["Route prediction failed. Check backend /api/predict-route logs."]
               [Rejected "timeout"] [])
     = alerts picked_world
       ++ flat_map failureAlert
            [ClickPredict; PredictSettle (Failed (Rejected "timeout"))].
Proof.
  assert (H : run [ClickPredict; PredictSettle (Failed (Rejected "timeout"))]
                  picked_world
              = Some (mkWorld sample_stations false VNull
                        (mkPicked station_a station_b)
                        ["Route prediction failed. Check backend /api/predict-route logs."]
                        [Rejected "timeout"] []))
    by (vm_compute; reflexivity).
  split; [exact H|].
  exact (proj1 (failures_reported_once _ _ _ H)).
Defined.

(** ** The predict action, further *)

(** X4.  Unless both a start and an end are picked, the predict action
    does nothing at all: no request is sent, the loading flag is not
    raised, no cell changes, and nothing is raised. *)
Theorem predict_needs_both (w : World) :
  truthy (start (picked w)) = false \/ truthy (end_ (picked w)) = false ->
  onPredict_start w = (Ok None, w)
  /\ forall o, onPredict o w = (Ok tt, w).
Proof.
  intros H.
  assert (Hc : truthy (canPredict (picked w)) = false).
  { destruct (truthy (canPredict (picked w))) eqn:Hc; [|reflexivity].
    apply canPredict_truthy in Hc; destruct Hc as [Hs He].
    destruct H as [H|H]; congruence. }
  split; [exact (onPredict_start_guard w Hc)|].
  intros o; unfold onPredict, bind.
  rewrite (onPredict_start_guard w Hc); reflexivity.
Qed.

Lemma predict_needs_both_witness :
  onPredict_start initial = (Ok None, initial)
  /\ forall o, onPredict o initial = (Ok tt, initial).
Proof. apply (predict_needs_both initial); left; reflexivity. Defined.

Lemma latitudeOf_object (fs : list (string * value)) :
  latitudeOf (VObj fs) = Ok (coordinate "latitude" "Latitude" fs).
Proof.
  unfold latitudeOf, coalesce, coordinate; cbn [getProp bindR].
  destruct (nullish (lookup "latitude" fs)); reflexivity.
Qed.

Lemma longitudeOf_object (fs : list (string * value)) :
  longitudeOf (VObj fs) = Ok (coordinate "longitude" "Longitude" fs).
Proof.
  unfold longitudeOf, coalesce, coordinate; cbn [getProp bindR].
  destruct (nullish (lookup "longitude" fs)); reflexivity.
Qed.

(** X5.  With two station records picked, the click sends exactly one
    request: its source is the latitude and longitude of the start, its
    destination those of the end, each read from the lower-case field
    unless that is null or undefined and from the capitalized field
    otherwise, unparsed; the only cells that change are the loading flag,
    now up, and the list of outstanding requests. *)
Theorem request_of_picked (w : World) (fs fe : list (string * value)) :
  picked w = mkPicked (VObj fs) (VObj fe) ->
  let req :=
    mkRequest (coordinate "latitude" "Latitude" fs,
               coordinate "longitude" "Longitude" fs)
              (coordinate "latitude" "Latitude" fe,
               coordinate "longitude" "Longitude" fe) in
  onPredict_start w
  = (Ok (Some req),
     mkWorld (stations w) true (routesResult w) (picked w)
             (alerts w) (consoleErrors w) (outstanding w ++ [req])).
Proof.
  intros Hp; cbv zeta.
  unfold onPredict_start, bind, getPicked.
  rewrite Hp; cbn [canPredict jsAnd start end_ truthy negb setLoading lift].
  rewrite !latitudeOf_object, !longitudeOf_object.
  cbn [picked]; rewrite Hp; reflexivity.
Qed.

Lemma request_of_picked_witness :
  picked picked_world = mkPicked station_a station_b
  /\ onPredict_start picked_world
     = (Ok (Some (mkRequest (VStr "12.97", VStr "77.59")
                            (VNum (decimal 2861 2), VNum (decimal 7721 2)))),
        waiting_world).
Proof.
  split; [reflexivity|].
  exact (request_of_picked picked_world _ _ eq_refl).
Defined.

(** X6.  The coordinate sent for a lower-case-only record and for a
    capitalized-only record with the same values is the same exactly when
    the value is not null: a null coordinate is sent as undefined from the
    lower-case record and as null from the capitalized one. *)
Theorem request_coordinate_convention (id name lat lon : value) :
  (latitudeOf (lowerOnly id name lat lon)
   = latitudeOf (capitalOnly id name lat lon) <-> lat <> VNull)
  /\ (longitudeOf (lowerOnly id name lat lon)
      = longitudeOf (capitalOnly id name lat lon) <-> lon <> VNull).
Proof.
  unfold lowerOnly, capitalOnly.
  rewrite !latitudeOf_object, !longitudeOf_object.
  unfold coordinate; cbn [lookup String.eqb Ascii.eqb Bool.eqb nullish].
  split; split; intros H.
  - intros ->; discriminate H.
  - destruct lat; try reflexivity; contradiction H; reflexivity.
  - intros ->; discriminate H.
  - destruct lon; try reflexivity; contradiction H; reflexivity.
Qed.

Lemma request_coordinate_convention_witness :
  VStr "12.97" <> VNull
  /\ latitudeOf (lowerOnly (VStr "A") (VStr "Alpha") (VStr "12.97") (VStr "77.59"))
     = latitudeOf (capitalOnly (VStr "A") (VStr "Alpha") (VStr "12.97") (VStr "77.59")).
Proof.
  assert (H : VStr "12.97" <> VNull) by discriminate.
  split; [exact H|].
  exact (proj2 (proj1 (request_coordinate_convention
                         (VStr "A") (VStr "Alpha") (VStr "12.97") (VStr "77.59")))
               H).
Defined.

Lemma handle_loading (ev : event) (w w' : World) :
  handle ev w = Some w' ->
  (loading w = true -> outstanding w <> []) ->
  loading w' = true -> outstanding w' <> [].
Proof.
  destruct ev; cbn [handle]; unfold rendered; intros H Hinv;
    try (destruct (App w) as [v|]; [|discriminate]);
    try (destruct (markerAt v i); [|discriminate]).
  - injection H as <-.
    assert (K1 : keeps loading (loadStations o))
      by (unfold loadStations; keeps_auto).
    assert (K2 : keeps outstanding (loadStations o))
      by (unfold loadStations; keeps_auto).
    rewrite K1, K2; exact Hinv.
  - injection H as <-.
    assert (K1 : keeps loading (onChangeStart id))
      by (unfold onChangeStart; keeps_auto).
    assert (K2 : keeps outstanding (onChangeStart id))
      by (unfold onChangeStart; keeps_auto).
    rewrite K1, K2; exact Hinv.
  - injection H as <-.
    assert (K1 : keeps loading (onChangeEnd id))
      by (unfold onChangeEnd; keeps_auto).
    assert (K2 : keeps outstanding (onChangeEnd id))
      by (unfold onChangeEnd; keeps_auto).
    rewrite K1, K2; exact Hinv.
  - injection H as <-; exact Hinv.
  - injection H as <-; exact Hinv.
  - injection H as <-.
    destruct (truthy (canPredict (picked w))) eqn:Hc.
    + destruct (onPredict_start_sends w Hc) as [req ->]; cbn.
      intros _ Hnil; apply app_eq_nil in Hnil; destruct Hnil; discriminate.
    + rewrite (onPredict_start_guard w Hc); exact Hinv.
  - destruct (outstanding w); [discriminate|].
    injection H as <-.
    destruct (onPredict_resume_returns o w) as [w1 [-> Hl]]; cbn [snd].
    rewrite Hl; discriminate.
Qed.

(** X7.  In every state the page can reach, a raised loading flag comes
    with at least one predict request that is still out; its settling
    then lowers the flag. *)
Theorem loading_has_outstanding (w : World) :
  reachable w -> loading w = true -> outstanding w <> [].
Proof.
  intros [evs H].
  assert (G : forall evs w0 w1,
             run evs w0 = Some w1 ->
             (loading w0 = true -> outstanding w0 <> []) ->
             loading w1 = true -> outstanding w1 <> []).
  { clear; induction evs as [|ev evs IH]; cbn [run]; intros w0 w1 H Hinv.
    - injection H as <-; exact Hinv.
    - destruct (handle ev w0) as [w2|] eqn:Hh; [|discriminate].
      exact (IH w2 w1 H (handle_loading ev w0 w2 Hh Hinv)). }
  apply (G evs initial w H); discriminate.
Qed.

Lemma loading_has_outstanding_witness :
  reachable waiting_world
  /\ loading waiting_world = true
  /\ outstanding waiting_world <> [].
Proof.
  assert (H : reachable waiting_world).
  { exists [StationsSettle (Responded sample_stations);
            ChooseStart "A"; MarkerEnd 2; ClickPredict].
    vm_compute; reflexivity. }
  split; [exact H|]; split; [reflexivity|].
  exact (loading_has_outstanding waiting_world H eq_refl).
Defined.

Lemma handle_result (ev : event) (w w' : World) :
  handle ev w = Some w' ->
  routesResult w' = match ev with
                    | PredictSettle (Responded res) => res
                    | _ => routesResult w
                    end.
Proof.
  intros H.
  destruct (stores_result ev) eqn:Hs.
  - destruct ev as [ | | | | | |[res|e]]; try discriminate Hs.
    cbn [handle] in H; destruct (outstanding w); [discriminate|].
    injection H as <-; reflexivity.
  - rewrite (handle_keeps_result ev w w' H Hs).
    destruct ev as [ | | | | | |[res|e]]; try reflexivity; discriminate Hs.
Qed.

(** X8.  After any run of events the stored result is the body of the
    last predict call that answered, unchanged, whatever calls failed or
    were made in between and in whatever order the calls settle; before
    any answer it is the result the run started with. *)
Theorem last_response_wins (evs : list event) :
  forall w w',
    run evs w = Some w' -> routesResult w' = lastResponse evs (routesResult w).
Proof.
  induction evs as [|ev evs IH]; cbn [run]; intros w w' H.
  - injection H as <-; reflexivity.
  - destruct (handle ev w) as [w1|] eqn:Hh; [|discriminate].
    rewrite (IH w1 w' H), (handle_result ev w w1 Hh).
    unfold lastResponse; cbn [fold_left].
    destruct ev as [ | | | | | |[res|e]]; reflexivity.
Qed.

Lemma last_response_wins_witness :
  run sample_events initial = Some sample_world
  /\ routesResult sample_world
     = lastResponse sample_events (routesResult initial).
Proof.
  assert (H : run sample_events initial = Some sample_world)
    by (vm_compute; reflexivity).
  split; [exact H|].
  exact (last_response_wins sample_events initial sample_world H).
Defined.

(** ** The dropdowns *)

Lemma strictEqStr_true (x : value) (id : string) :
  strictEqStr x id = true -> x = VStr id.
Proof.
  destruct x; cbn; intros H; try discriminate.
  apply String.eqb_eq in H; rewrite H; reflexivity.
Qed.

Lemma strictEqStr_false (x : value) (id : string) :
  strictEqStr x id = false -> x <> VStr id.
Proof.
  intros H ->; cbn in H; rewrite String.eqb_refl in H; discriminate.
Qed.

Lemma findStation_spec (id : string) (l : list value) :
  (forall s, In s l -> nullish s = false) ->
  (exists fs, findStation id l = Ok (VObj fs)
              /\ In (VObj fs) l
              /\ stationId (VObj fs) = Ok (VStr id))
  \/ (findStation id l = Ok VUndefined
      /\ forall s sid, In s l -> stationId s = Ok sid -> sid <> VStr id).
Proof.
  induction l as [|s l IH]; intros Hall.
  - right; split; [reflexivity|intros s sid []].
  - cbn [findStation].
    destruct (stationId_total s (Hall s (or_introl eq_refl))) as [sid Hsid].
    rewrite Hsid; cbn [bindR].
    destruct (strictEqStr sid id) eqn:Heq.
    + left.
      pose proof (strictEqStr_true _ _ Heq) as ->.
      destruct s;
        try (apply stationId_not_object in Hsid;
             [discriminate Hsid|intros fs' Hc; discriminate Hc]).
      exists fields; split; [reflexivity|]; split; [left; reflexivity|exact Hsid].
    + destruct IH as [(fs & Hf & Hin & Hid) | [Hf Hnone]];
        [intros s' Hs'; apply Hall; right; exact Hs'| |].
      * left; exists fs; split; [exact Hf|]; split; [right; exact Hin|exact Hid].
      * right; split; [exact Hf|].
        intros s' sid' [<- | Hin] Hs'.
        -- rewrite Hsid in Hs'; injection Hs' as <-.
           exact (strictEqStr_false _ _ Heq).
        -- exact (Hnone s' sid' Hin Hs').
Qed.

(** X9.  Changing the start dropdown to [id], on a station list without
    null entries, either picks a station of the list whose identifier is
    the string [id], and the dropdown then shows [id] as its value, or
    finds no station with that identifier and clears the start, and the
    dropdown then shows the empty placeholder value.  The end and every
    other cell stay as they were; the end dropdown does the same with the
    two sides exchanged. *)
Theorem dropdown_roundtrip (id : string) (w : World) (l : list value) :
  stations w = VArr l ->
  (forall s, In s l -> nullish s = false) ->
  exists st,
    onChangeStart id w = (Ok tt, withPicked (mkPicked st (end_ (picked w))) w)
    /\ onChangeEnd id w = (Ok tt, withPicked (mkPicked (start (picked w)) st) w)
    /\ ((In st l /\ stationId st = Ok (VStr id)
         /\ selectedValue st = Ok (VStr id))
        \/ (st = VNull
            /\ (forall s sid, In s l -> stationId s = Ok sid -> sid <> VStr id)
            /\ selectedValue st = Ok (VStr ""))).
Proof.
  intros Hst Hall.
  unfold onChangeStart, onChangeEnd, bind, getStations, lift, setPicked,
    withPicked.
  rewrite Hst; cbn [findIn].
  destruct (findStation_spec id l Hall) as [(fs & Hf & Hin & Hid) | [Hf Hnone]];
    rewrite Hf; cbn [jsOr truthy].
  - exists (VObj fs); split; [reflexivity|]; split; [reflexivity|].
    left; split; [exact Hin|]; split; [exact Hid|].
    unfold selectedValue; cbn [truthy]; exact Hid.
  - exists VNull; split; [reflexivity|]; split; [reflexivity|].
    right; split; [reflexivity|]; split; [exact Hnone|reflexivity].
Qed.

Lemma dropdown_roundtrip_witness :
  stations picked_world = sample_stations
  /\ exists st,
       onChangeStart "C" picked_world
       = (Ok tt, withPicked (mkPicked st (end_ (picked picked_world))) picked_world)
       /\ onChangeEnd "C" picked_world
          = (Ok tt, withPicked (mkPicked (start (picked picked_world)) st)
                               picked_world)
       /\ ((In st [station_a; station_c; station_b]
            /\ stationId st = Ok (VStr "C")
            /\ selectedValue st = Ok (VStr "C"))
           \/ (st = VNull
               /\ (forall s sid, In s [station_a; station_c; station_b] ->
                                 stationId s = Ok sid -> sid <> VStr "C")
               /\ selectedValue st = Ok (VStr ""))).
Proof.
  split; [reflexivity|].
  apply (dropdown_roundtrip "C" picked_world [station_a; station_c; station_b]
                            eq_refl).
  intros s [<- | [<- | [<- | []]]]; reflexivity.
Defined.

(** X10.  The dropdown picks the first station of the list whose
    identifier is the chosen string: a later station with the same
    identifier cannot be picked from a dropdown. *)
Theorem dropdown_picks_first (id : string) (pre post : list value) (s : value) :
  (forall p, In p pre ->
             exists sid, stationId p = Ok sid /\ sid <> VStr id) ->
  stationId s = Ok (VStr id) ->
  findIn id (VArr (pre ++ s :: post)) = Ok s.
Proof.
  intros Hpre Hs; cbn [findIn].
  induction pre as [|p pre IH]; cbn [app findStation].
  - rewrite Hs; cbn [bindR strictEqStr]; rewrite String.eqb_refl; reflexivity.
  - destruct (Hpre p (or_introl eq_refl)) as [sid [Hsid Hne]].
    rewrite Hsid; cbn [bindR].
    destruct (strictEqStr sid id) eqn:Heq.
    + exfalso; exact (Hne (strictEqStr_true _ _ Heq)).
    + apply IH; intros q Hq; apply Hpre; right; exact Hq.
Qed.

Lemma dropdown_picks_first_witness :
  stationId station_a = Ok (VStr "A")
  /\ stationId station_a_again = Ok (VStr "A")
  /\ findIn "A" (VArr [station_c; station_a; station_b; station_a_again])
     = Ok station_a.
Proof.
  split; [reflexivity|]; split; [reflexivity|].
  apply (dropdown_picks_first "A" [station_c] [station_b; station_a_again]
                              station_a); [|reflexivity].
  intros p [<- | []]; exists (VStr "C"); split; [reflexivity|discriminate].
Defined.

(** ** Markers *)

Lemma markerOf_some (i : nat) (s : value) (m : Marker) :
  markerOf i s = Ok (Some m) ->
  toLat s = Ok (fst (mk_position m))
  /\ toLon s = Ok (snd (mk_position m))
  /\ isNaN (fst (mk_position m)) = false
  /\ isNaN (snd (mk_position m)) = false
  /\ mk_station m = s
  /\ stationId s = Ok (mk_id m)
  /\ stationName s (mk_id m) = Ok (mk_name m)
  /\ mk_key m = jsOr (mk_id m) (VNum (integer (Z.of_nat i))).
Proof.
  unfold markerOf; intros H.
  destruct (toLat s) as [lat|]; cbn [bindR] in H; [|discriminate].
  destruct (toLon s) as [lon|]; cbn [bindR] in H; [|discriminate].
  destruct (isNaN lat || isNaN lon) eqn:Hn; [discriminate|].
  apply orb_false_elim in Hn; destruct Hn as [Hlat Hlon].
  destruct (stationId s) as [id|]; cbn [bindR] in H; [|discriminate].
  destruct (stationName s id) as [nm|] eqn:Hnm; cbn [bindR] in H;
    [|discriminate].
  destruct (getProp s "City") as [c|]; cbn [bindR] in H; [|discriminate].
  destruct (orElse c (getProp s "city")) as [city|]; cbn [bindR] in H;
    [|discriminate].
  injection H as <-; cbn.
  repeat split; first [assumption|reflexivity].
Qed.

Lemma markerOf_parseable (i : nat) (s : value) (lat lon : number) :
  nullish s = false ->
  toLat s = Ok lat -> toLon s = Ok lon ->
  isNaN lat = false -> isNaN lon = false ->
  exists m, markerOf i s = Ok (Some m) /\ mk_position m = (lat, lon).
Proof.
  intros Hs Hlat Hlon Hn1 Hn2.
  unfold markerOf; rewrite Hlat, Hlon; cbn [bindR]; rewrite Hn1, Hn2.
  cbn [orb].
  destruct (stationId_total s Hs) as [id ->]; cbn [bindR].
  destruct (stationName_total s id Hs) as [nm ->]; cbn [bindR].
  destruct (getProp_total s "City" Hs) as [c ->]; cbn [bindR].
  destruct (getProp_total s "city" Hs) as [c' Hc']; unfold orElse.
  destruct (truthy c); [|rewrite Hc']; cbn [bindR];
    eexists; split; reflexivity.
Qed.

(** Once both coordinates are parsed, nothing else in the body of the
    marker can raise. *)
Lemma markerOf_returns (i : nat) (s : value) (lat lon : number) :
  nullish s = false ->
  toLat s = Ok lat -> toLon s = Ok lon ->
  exists r, markerOf i s = Ok r.
Proof.
  intros Hs Hlat Hlon.
  destruct (isNaN lat || isNaN lon) eqn:Hn.
  - exists None; apply markerOf_unparseable.
    exists lat, lon; repeat split; assumption.
  - apply orb_false_elim in Hn; destruct Hn as [Hn1 Hn2].
    destruct (markerOf_parseable i s lat lon Hs Hlat Hlon Hn1 Hn2)
      as [m [Hm _]]; eauto.
Qed.

Lemma markerOf_ok_coordinates (i : nat) (s : value) (r : option Marker) :
  markerOf i s = Ok r ->
  (exists lat, toLat s = Ok lat) /\ (exists lon, toLon s = Ok lon).
Proof.
  unfold markerOf; intros H.
  destruct (toLat s) as [lat|]; cbn [bindR] in H; [|discriminate].
  destruct (toLon s) as [lon|]; cbn [bindR] in H; [|discriminate].
  split; eauto.
Qed.

Lemma parseFloat_returns_iff (v : value) :
  (exists n, parseFloat v = Ok n) <-> stringifies v = Ok tt.
Proof.
  unfold parseFloat; destruct (stringifies v) as [[]|e]; cbn [bindR]; split.
  - reflexivity.
  - eauto.
  - intros [n H]; discriminate H.
  - discriminate.
Qed.

Lemma toLat_object (fs : list (string * value)) :
  toLat (VObj fs) = parseFloat (coordinate "latitude" "Latitude" fs).
Proof. unfold toLat; rewrite latitudeOf_object; reflexivity. Qed.

Lemma toLon_object (fs : list (string * value)) :
  toLon (VObj fs) = parseFloat (coordinate "longitude" "Longitude" fs).
Proof. unfold toLon; rewrite longitudeOf_object; reflexivity. Qed.

(** X11.  For a station entry that is not null, the body of its marker
    raises exactly when parsing its latitude or its longitude raises,
    which for a record is when that coordinate cannot be converted to a
    string (an object with a key [toString], or an array holding one).
    When both are parsed, the entry gets a marker exactly when neither is
    NaN, and the marker sits at the parsed coordinates. *)
Theorem marker_iff_parseable (i : nat) (s : value) :
  nullish s = false ->
  ((exists r, markerOf i s = Ok r)
   <-> (exists lat, toLat s = Ok lat) /\ (exists lon, toLon s = Ok lon))
  /\ (forall fs,
        s = VObj fs ->
        ((exists lat, toLat s = Ok lat)
         <-> stringifies (coordinate "latitude" "Latitude" fs) = Ok tt)
        /\ ((exists lon, toLon s = Ok lon)
            <-> stringifies (coordinate "longitude" "Longitude" fs) = Ok tt))
  /\ forall lat lon,
       toLat s = Ok lat -> toLon s = Ok lon ->
       ((exists m, markerOf i s = Ok (Some m) /\ mk_position m = (lat, lon))
        <-> isNaN lat = false /\ isNaN lon = false).
Proof.
  intros Hs.
  split; [|split].
  - split.
    + intros [r Hr]; exact (markerOf_ok_coordinates i s r Hr).
    + intros [[lat Hlat] [lon Hlon]].
      exact (markerOf_returns i s lat lon Hs Hlat Hlon).
  - intros fs ->.
    rewrite toLat_object, toLon_object.
    split; apply parseFloat_returns_iff.
  - intros lat lon Hlat Hlon; split.
    + intros [m [Hm Hpos]].
      destruct (markerOf_some i s m Hm) as (_ & _ & H1 & H2 & _).
      rewrite Hpos in H1, H2; split; assumption.
    + intros [Hn1 Hn2];
        exact (markerOf_parseable i s lat lon Hs Hlat Hlon Hn1 Hn2).
Qed.

Lemma marker_iff_parseable_witness :
  nullish station_b = false
  /\ exists m, markerOf 2 station_b = Ok (Some m)
               /\ mk_position m = (decimal 2861 2, decimal 7721 2).
Proof.
  split; [reflexivity|].
  apply (proj2 (proj2 (marker_iff_parseable 2 station_b eq_refl))
               (decimal 2861 2) (decimal 7721 2) eq_refl eq_refl).
  split; reflexivity.
Defined.

(** X12.  The popup of a marker and the dropdowns agree on a station: the
    identifier and the name shown in the popup are the value and the label
    of the option both dropdowns show for it. *)
Theorem marker_matches_option (i : nat) (s : value) (m : Marker) :
  markerOf i s = Ok (Some m) ->
  optionOf s = Ok (mkOption (mk_id m) (mk_id m) (mk_name m)).
Proof.
  intros H.
  destruct (markerOf_some i s m H) as (_ & _ & _ & _ & _ & Hid & Hnm & _).
  unfold optionOf; rewrite Hid; cbn [bindR]; rewrite Hnm; reflexivity.
Qed.

Lemma marker_matches_option_witness :
  markerOf 0 station_a
  = Ok (Some (mkMarker (VStr "A") (decimal 1297 2, decimal 7759 2)
                       (VStr "Alpha") (VStr "A") VUndefined station_a))
  /\ optionOf station_a = Ok (mkOption (VStr "A") (VStr "A") (VStr "Alpha")).
Proof.
  split; [reflexivity|].
  exact (marker_matches_option 0 station_a _ eq_refl).
Defined.

Lemma mapRi_length {A B} (f : nat -> A -> result B) (l : list A) :
  forall i ys, mapRi f i l = Ok ys -> length ys = length l.
Proof.
  induction l as [|x l IH]; cbn [mapRi]; intros i ys H.
  - injection H as <-; reflexivity.
  - destruct (f i x); cbn [bindR] in H; [|discriminate].
    destruct (mapRi f (S i) l) as [t|] eqn:Ht; cbn [bindR] in H; [|discriminate].
    injection H as <-; cbn [length]; rewrite (IH _ _ Ht); reflexivity.
Qed.

(** X13.  When the markers render, the station list is an array and there
    is one slot per station, in the order of the list; a filled slot holds
    the marker of the station at that place, at coordinates neither of
    which is NaN. *)
Theorem markers_slots (ss : value) (ms : list (option Marker)) :
  markers ss = Ok ms ->
  exists l,
    ss = VArr l
    /\ length ms = length l
    /\ forall i m,
         nth_error ms i = Some (Some m) ->
         nth_error l i = Some (mk_station m)
         /\ markerOf i (mk_station m) = Ok (Some m)
         /\ isNaN (fst (mk_position m)) = false
         /\ isNaN (snd (mk_position m)) = false.
Proof.
  unfold markers; intros H.
  destruct ss; try discriminate H.
  cbn [arrayItems bindR] in H.
  exists items; split; [reflexivity|].
  split; [exact (mapRi_length _ _ _ _ H)|].
  intros i m Hn.
  destruct (mapRi_nth _ _ _ _ _ _ H Hn) as [s [Hs Hf]].
  rewrite Nat.add_0_r in Hf.
  destruct (markerOf_some i s m Hf) as (_ & _ & H1 & H2 & Hst & _).
  rewrite Hst; repeat split; assumption.
Qed.

Lemma markers_slots_witness :
  exists l,
    sample_stations = VArr l
    /\ length [Some (mkMarker (VStr "A") (decimal 1297 2, decimal 7759 2)
                              (VStr "Alpha") (VStr "A") VUndefined station_a);
               None;
               Some (mkMarker (VStr "B") (decimal 2861 2, decimal 7721 2)
                              (VStr "Beta") (VStr "B") VUndefined station_b)]
       = length l
    /\ forall i m,
         nth_error
           [Some (mkMarker (VStr "A") (decimal 1297 2, decimal 7759 2)
                           (VStr "Alpha") (VStr "A") VUndefined station_a);
            None;
            Some (mkMarker (VStr "B") (decimal 2861 2, decimal 7721 2)
                           (VStr "Beta") (VStr "B") VUndefined station_b)] i
         = Some (Some m) ->
         nth_error l i = Some (mk_station m)
         /\ markerOf i (mk_station m) = Ok (Some m)
         /\ isNaN (fst (mk_position m)) = false
         /\ isNaN (snd (mk_position m)) = false.
Proof. exact (markers_slots sample_stations _ eq_refl). Defined.



(** ** Overlays, further *)

Lemma mapR_each {A B} (f : A -> result B) (l : list A) (ys : list B) (x : A) :
  mapR f l = Ok ys -> In x l -> exists y, f x = Ok y /\ In y ys.
Proof.
  revert ys; induction l as [|x0 l IH]; cbn [mapR]; intros ys H Hin;
    [destruct Hin|].
  destruct (f x0) as [y0|] eqn:Hx; cbn [bindR] in H; [|discriminate].
  destruct (mapR f l) as [t|]; cbn [bindR] in H; [|discriminate].
  injection H as <-.
  destruct Hin as [<- | Hin].
  - exists y0; split; [exact Hx|left; reflexivity].
  - destruct (IH t eq_refl Hin) as [y [Hy Hiny]].
    exists y; split; [exact Hy|right; exact Hiny].
Qed.

Lemma mapR_image {A B} (f : A -> result B) (l : list A) (ys : list B) (y : B) :
  mapR f l = Ok ys -> In y ys -> exists x, In x l /\ f x = Ok y.
Proof.
  revert ys; induction l as [|x0 l IH]; cbn [mapR]; intros ys H Hin.
  - injection H as <-; destruct Hin.
  - destruct (f x0) as [y0|] eqn:Hx; cbn [bindR] in H; [|discriminate].
    destruct (mapR f l) as [t|]; cbn [bindR] in H; [|discriminate].
    injection H as <-.
    destruct Hin as [<- | Hin].
    + exists x0; split; [left; reflexivity|exact Hx].
    + destruct (IH t eq_refl Hin) as [x [Hx' Hy]].
      exists x; split; [right; exact Hx'|exact Hy].
Qed.

Lemma mapR_length {A B} (f : A -> result B) (l : list A) (ys : list B) :
  mapR f l = Ok ys -> length ys = length l.
Proof.
  revert ys; induction l as [|x l IH]; cbn [mapR]; intros ys H.
  - injection H as <-; reflexivity.
  - destruct (f x); cbn [bindR] in H; [|discriminate].
    destruct (mapR f l) as [t|]; cbn [bindR] in H; [|discriminate].
    injection H as <-; cbn [length]; rewrite (IH t eq_refl); reflexivity.
Qed.

Lemma mapR_throws {A B} (f : A -> result B) (l : list A) (x : A) (e : exn) :
  In x l -> f x = Throw e -> exists e', mapR f l = Throw e'.
Proof.
  induction l as [|x0 l IH]; cbn [mapR]; intros Hin Hx; [destruct Hin|].
  destruct Hin as [-> | Hin].
  - rewrite Hx; cbn [bindR]; eauto.
  - destruct (f x0); cbn [bindR]; [|eauto].
    destruct (IH Hin Hx) as [e' ->]; cbn [bindR]; eauto.
Qed.

Lemma swapPair_two (p q : value) :
  swapPair p = Ok q -> exists a b, q = VArr [a; b].
Proof.
  destruct p; cbn [swapPair]; intros H; try discriminate;
    injection H as <-; eauto.
Qed.

Lemma remapLine_points (r l : value) :
  remapLine r = Ok l ->
  exists pts pts',
    r = VArr pts /\ l = VArr pts' /\ length pts' = length pts
    /\ forall q, In q pts' -> exists a b, q = VArr [a; b].
Proof.
  destruct r; cbn [remapLine]; intros H; try discriminate.
  destruct (mapR swapPair items) as [pts'|] eqn:Hm; cbn [bindR] in H;
    [|discriminate].
  injection H as <-.
  exists items, pts'; split; [reflexivity|]; split; [reflexivity|].
  split; [exact (mapR_length _ _ _ Hm)|].
  intros q Hq.
  destruct (mapR_image _ _ _ _ Hm Hq) as [p [_ Hp]].
  exact (swapPair_two p q Hp).
Qed.

(** X15.  Whatever the overlay builder returns is an array of lines, each
    an array of points with exactly two coordinates: a third component of
    an input point (an altitude) is dropped and a missing one is filled
    with undefined.  With an array for geometry there is one line per
    array entry, with as many points as the entry. *)
Theorem polylines_shape (routesResult out : value) :
  polylines routesResult = Ok out ->
  exists ls,
    out = VArr ls
    /\ (forall l, In l ls ->
          exists pts, l = VArr pts
                      /\ forall q, In q pts -> exists a b, q = VArr [a; b])
    /\ (forall rs,
          getPropOpt routesResult "ors_geometry" = Ok (VArr rs) ->
          Forall2 (fun r l => exists pts pts',
                       r = VArr pts /\ l = VArr pts'
                       /\ length pts' = length pts)
                  (filter isArray rs) ls).
Proof.
  unfold polylines; intros H.
  destruct (getPropOpt routesResult "ors_geometry") as [g|]; cbn [bindR] in H;
    [|discriminate].
  destruct g as [ | | | | |rs| ];
    try (injection H as <-; exists []; split; [reflexivity|];
         split; [intros l []|intros rs' Hrs'; discriminate Hrs']).
  destruct (mapR remapLine (filter isArray rs)) as [ls|] eqn:Hm;
    cbn [bindR] in H; [|discriminate].
  injection H as <-.
  exists ls; split; [reflexivity|]; split.
  - intros l Hl.
    destruct (mapR_image _ _ _ _ Hm Hl) as [r [_ Hr]].
    destruct (remapLine_points r l Hr) as (pts & pts' & _ & -> & _ & Hq).
    exists pts'; split; [reflexivity|exact Hq].
  - intros rs' Hrs'; injection Hrs' as <-.
    apply mapR_Forall2 in Hm.
    induction Hm as [|r l rs0 ls0 Hr _ IH]; constructor; [|exact IH].
    destruct (remapLine_points r l Hr) as (pts & pts' & -> & -> & Hlen & _).
    exists pts, pts'; repeat split; exact Hlen.
Qed.

Lemma polylines_shape_witness :
  polylines (withGeometry (VArr [VArr [VArr [num 10; num 20; num 900]]; VNull]))
  = Ok (VArr [VArr [VArr [num 20; num 10]]])
  /\ exists ls,
       VArr [VArr [VArr [num 20; num 10]]] = VArr ls
       /\ (forall l, In l ls ->
             exists pts, l = VArr pts
                         /\ forall q, In q pts -> exists a b, q = VArr [a; b])
       /\ (forall rs,
             getPropOpt (withGeometry
                           (VArr [VArr [VArr [num 10; num 20; num 900]]; VNull]))
                        "ors_geometry" = Ok (VArr rs) ->
             Forall2 (fun r l => exists pts pts',
                          r = VArr pts /\ l = VArr pts'
                          /\ length pts' = length pts)
                     (filter isArray rs) ls).
Proof.
  split; [reflexivity|].
  exact (polylines_shape
           (withGeometry (VArr [VArr [VArr [num 10; num 20; num 900]]; VNull]))
           (VArr [VArr [VArr [num 20; num 10]]]) eq_refl).
Defined.

Lemma polylines_of_lines (lines : list (list (value * value))) :
  polylines (withGeometry (VArr (map lineValue lines)))
  = Ok (VArr (map lineValue (map (map swap) lines))).
Proof.
  unfold polylines, withGeometry; cbn [getPropOpt nullish getProp lookup String.eqb
                                       Ascii.eqb Bool.eqb bindR].
  rewrite filter_lines.
  induction lines as [|l lines IH]; cbn [map mapR]; [reflexivity|].
  rewrite remapLine_line; cbn [bindR].
  destruct (mapR remapLine (map lineValue lines)) as [t|]; cbn [bindR] in *;
    [|discriminate].
  injection IH as ->; reflexivity.
Qed.

(** X16.  On a geometry made of pairs the remapping undoes itself: feeding
    the overlays back as a geometry gives the original geometry. *)
Theorem polylines_involution (lines : list (list (value * value))) :
  exists out,
    polylines (withGeometry (VArr (map lineValue lines))) = Ok out
    /\ polylines (withGeometry out) = Ok (VArr (map lineValue lines)).
Proof.
  exists (VArr (map lineValue (map (map swap) lines))).
  split; [exact (polylines_of_lines lines)|].
  rewrite polylines_of_lines.
  assert (H : map (map swap) (map (map swap) lines) = lines).
  { induction lines as [|l lines IH]; cbn [map]; [reflexivity|].
    rewrite IH; f_equal.
    induction l as [|[a b] l IHl]; cbn [map swap fst snd]; [reflexivity|].
    rewrite IHl; reflexivity. }
  rewrite H; reflexivity.
Qed.

Lemma App_throws_of_polylines (w : World) (e : exn) :
  polylines (routesResult w) = Throw e -> exists e', App w = Throw e'.
Proof.
  intros H; unfold App, MapView; rewrite H; cbn [bindR].
  repeat match goal with
         | |- exists _, bindR ?c _ = _ => destruct c; cbn [bindR]; [|eauto]
         end.
  eauto.
Qed.

(** X17.  A point that is neither an array nor a string, anywhere in an
    array entry of the geometry, makes the overlay builder raise, and with
    it the render of the whole page, which has nothing to catch it. *)
Theorem polylines_bad_point (w : World) (rs pts : list value) (p : value) :
  getPropOpt (routesResult w) "ors_geometry" = Ok (VArr rs) ->
  In (VArr pts) rs -> In p pts ->
  isArray p = false -> (forall s, p <> VStr s) ->
  (exists e, polylines (routesResult w) = Throw e)
  /\ (exists e, App w = Throw e).
Proof.
  intros Hg Hr Hp Harr Hstr.
  assert (H : exists e, polylines (routesResult w) = Throw e).
  { rewrite (polylines_array _ rs Hg).
    assert (Hs : exists e, swapPair p = Throw e).
    { destruct p; cbn [swapPair]; eauto; try discriminate Harr.
      exfalso; exact (Hstr s eq_refl). }
    destruct Hs as [e Hs].
    destruct (mapR_throws swapPair pts p e Hp Hs) as [e1 He1].
    assert (Hl : remapLine (VArr pts) = Throw e1)
      by (cbn [remapLine]; rewrite He1; reflexivity).
    assert (Hin : In (VArr pts) (filter isArray rs))
      by (apply filter_In; split; [exact Hr|reflexivity]).
    destruct (mapR_throws remapLine _ _ e1 Hin Hl) as [e2 ->].
    cbn [bindR]; eauto. }
  split; [exact H|].
  destruct H as [e He]; exact (App_throws_of_polylines w e He).
Qed.

Lemma polylines_bad_point_witness :
  (exists e,
     polylines (routesResult
                  (mkWorld sample_stations false
                           (withGeometry (VArr [VArr [VArr [num 10; num 20]; VNull]]))
                           (mkPicked VNull VNull) [] [] [])) = Throw e)
  /\ (exists e,
        App (mkWorld sample_stations false
                     (withGeometry (VArr [VArr [VArr [num 10; num 20]; VNull]]))
                     (mkPicked VNull VNull) [] [] []) = Throw e).
Proof.
  apply (polylines_bad_point
           (mkWorld sample_stations false
                    (withGeometry (VArr [VArr [VArr [num 10; num 20]; VNull]]))
                    (mkPicked VNull VNull) [] [] [])
           [VArr [VArr [num 10; num 20]; VNull]]
           [VArr [num 10; num 20]; VNull] VNull eq_refl).
  - left; reflexivity.
  - right; left; reflexivity.
  - reflexivity.
  - intros s H; discriminate H.
Defined.

(** ** The routes panel, further *)

Lemma summaryRow_ok_not_nullish (r : value) (row : SummaryRow) :
  summaryRow r = Ok row -> nullish r = false.
Proof. destruct r; cbn; intros H; try reflexivity; discriminate. Qed.

(** X18.  The body of the routes panel returns, rather than raising,
    exactly when the result is falsy, or its routes are falsy (missing,
    null, empty text), or its routes are an array none of whose entries is
    null or undefined.  Routes that are an object, a number or a non-empty
    text, or a null entry in the array, make it raise.  (What the
    rendering library does with the returned elements is not part of
    this.) *)
Theorem panel_renders_iff (routesResult : value) :
  (exists pv, RoutePanel routesResult = Ok pv)
  <-> (truthy routesResult = false
       \/ exists rs,
            getProp routesResult "routes" = Ok rs
            /\ (truthy rs = false
                \/ exists l, rs = VArr l
                             /\ forall r, In r l -> nullish r = false)).
Proof.
  unfold RoutePanel; split.
  - intros [pv H].
    destruct (truthy routesResult) eqn:Ht; [right|left; reflexivity].
    cbn [negb] in H.
    destruct (summary routesResult) as [rows|] eqn:Hs; cbn [bindR] in H;
      [|discriminate].
    unfold summary in Hs.
    destruct (getProp routesResult "routes") as [rs|]; cbn [bindR] in Hs;
      [|discriminate].
    exists rs; split; [reflexivity|].
    unfold jsOr in Hs.
    destruct (truthy rs) eqn:Hrs; [right|left; reflexivity].
    destruct rs; try discriminate Hs.
    cbn [arrayItems bindR] in Hs.
    exists items; split; [reflexivity|].
    intros r Hr.
    destruct (mapR_each _ _ _ _ Hs Hr) as [row [Hrow _]].
    exact (summaryRow_ok_not_nullish r row Hrow).
  - intros [Hf | (rs & Hrs & Hcase)].
    + rewrite Hf; cbn [negb]; eauto.
    + destruct (truthy routesResult) eqn:Ht; cbn [negb]; [|eauto].
      destruct (getProp_truthy routesResult "gemini_summary" Ht) as [g Hg].
      assert (Hs : exists rows, summary routesResult = Ok rows).
      { unfold summary, jsOr; rewrite Hrs; cbn [bindR].
        destruct Hcase as [-> | (l & -> & Hall)].
        - cbn [arrayItems bindR mapR]; eauto.
        - cbn [truthy arrayItems bindR].
          apply mapR_total; intros r Hr.
          destruct (summaryRow_spec r (Hall r Hr)) as [row [Hrow _]]; eauto. }
      destruct Hs as [rows ->]; rewrite Hg; cbn [bindR]; eauto.
Qed.

Lemma panel_renders_iff_witness :
  getProp sample_result "routes" = Ok (VArr [sample_route])
  /\ exists pv, RoutePanel sample_result = Ok pv.
Proof.
  split; [reflexivity|].
  apply (proj2 (panel_renders_iff sample_result)).
  right; exists (VArr [sample_route]); split; [reflexivity|].
  right; exists [sample_route]; split; [reflexivity|].
  intros r [<- | []]; reflexivity.
Defined.

(** X19.  In a row of the summary a forecast is shown as the first
    element of its array, zero included; it is shown as N/A when the field
    is not an array, when the array is empty and when its first element is
    null or undefined. *)
Theorem forecast_shown (r a m : value) (row : SummaryRow) :
  summaryRow r = Ok row ->
  getProp r "avg_forecast_pm2_5" = Ok a ->
  getProp r "max_forecast_pm2_5" = Ok m ->
  rv_avg (rowView row) = shownForecast a
  /\ rv_max (rowView row) = shownForecast m.
Proof.
  unfold summaryRow; intros H Ha Hm.
  rewrite Ha, Hm in H.
  destruct (getProp r "route_index"); cbn [bindR] in H; [|discriminate].
  destruct (getProp r "waypoints"); cbn [bindR] in H; [|discriminate].
  injection H as <-; cbn [rowView rv_avg rv_max avg max].
  unfold jsCoalesce, firstOrNull, shownForecast; split.
  - destruct a as [ | | | | |[|x xs]| ]; reflexivity.
  - destruct m as [ | | | | |[|x xs]| ]; reflexivity.
Qed.

Lemma forecast_shown_witness :
  rv_avg (rowView (mkRow (num 2) (num 0) VUndefined VUndefined)) = num 0
  /\ rv_max (rowView (mkRow (num 2) (num 0) VUndefined VUndefined)) = VStr "N/A".
Proof.
  exact (forecast_shown
           (VObj [("route_index", num 2);
                  ("avg_forecast_pm2_5", VArr [num 0; num 3]);
                  ("max_forecast_pm2_5", VArr [])])
           (VArr [num 0; num 3]) (VArr [])
           (mkRow (num 2) (num 0) VUndefined VUndefined)
           eq_refl eq_refl eq_refl).
Defined.

(** ** When the page renders *)

Lemma mapRi_total {A B} (f : nat -> A -> result B) (l : list A) :
  (forall i x, In x l -> exists y, f i x = Ok y) ->
  forall i, exists ys, mapRi f i l = Ok ys.
Proof.
  induction l as [|x l IH]; cbn [mapRi]; intros H i; [eauto|].
  destruct (H i x (or_introl eq_refl)) as [y ->]; cbn [bindR].
  destruct (IH (fun j z Hz => H j z (or_intror Hz)) (S i)) as [ys ->].
  cbn [bindR]; eauto.
Qed.

Lemma pickedLabel_total (s : value) (placeholder : string) :
  stationOrNull s -> exists v, pickedLabel s placeholder = Ok v.
Proof.
  destruct s; cbn [stationOrNull]; intros H; try contradiction.
  - cbn; eauto.
  - unfold pickedLabel, orElse; cbn [truthy getProp bindR].
    repeat match goal with
           | |- context [truthy ?x] => destruct (truthy x); cbn [bindR]
           end; eauto.
Qed.

Lemma selectedValue_total (s : value) :
  stationOrNull s -> exists v, selectedValue s = Ok v.
Proof.
  destruct s; cbn [stationOrNull]; intros H; try contradiction.
  - cbn; eauto.
  - unfold selectedValue; cbn [truthy].
    apply stationId_total; reflexivity.
Qed.

Lemma optionOf_ok_not_nullish (s : value) (o : OptionView) :
  optionOf s = Ok o -> nullish s = false.
Proof. destruct s; cbn; intros H; try reflexivity; discriminate. Qed.

Lemma mapRi_each {A B} (f : nat -> A -> result B) (l : list A) :
  forall i ys x,
    mapRi f i l = Ok ys -> In x l -> exists j y, f j x = Ok y.
Proof.
  induction l as [|x0 l IH]; cbn [mapRi]; intros i ys x H Hin;
    [destruct Hin|].
  destruct (f i x0) as [y0|] eqn:Hx; cbn [bindR] in H; [|discriminate].
  destruct (mapRi f (S i) l) as [t|] eqn:Ht; cbn [bindR] in H; [|discriminate].
  destruct Hin as [<- | Hin]; [eauto|].
  exact (IH (S i) t x Ht Hin).
Qed.

(** X20.  With a selection of station records or nulls, the bodies of the
    page's components return, rather than raising, exactly when the
    station list is an array whose entries are not null or undefined and
    have a latitude and a longitude whose parse returns, the overlay
    builder returns and the body of the routes panel returns.  Nothing
    else makes this code raise: not a station with missing fields, not a
    coordinate that parses to NaN, not the selection.  (What the rendering
    library does with the returned elements is not part of this.) *)
Theorem page_renders_iff (w : World) :
  selection_ok (picked w) ->
  ((exists v, App w = Ok v)
   <-> ((exists l, stations w = VArr l
                   /\ forall s, In s l ->
                                nullish s = false
                                /\ (exists lat, toLat s = Ok lat)
                                /\ (exists lon, toLon s = Ok lon))
        /\ (exists ls, polylines (routesResult w) = Ok ls)
        /\ (exists pv, RoutePanel (routesResult w) = Ok pv))).
Proof.
  intros [Hs He]; split.
  - intros [v Hv].
    destruct (App_parts w v Hv) as (Hso & _ & Hms & Hp & Hrp).
    split; [|split; eauto].
    unfold stationOptions in Hso; unfold markers in Hms.
    destruct (stations w) as [ | | | | |l| ]; try discriminate Hso.
    cbn [arrayItems bindR] in Hso, Hms.
    exists l; split; [reflexivity|].
    intros s Hin.
    destruct (mapR_each _ _ _ _ Hso Hin) as [o [Ho _]].
    destruct (mapRi_each _ _ _ _ _ Hms Hin) as (j & r & Hr).
    split; [exact (optionOf_ok_not_nullish s o Ho)|].
    exact (markerOf_ok_coordinates j s r Hr).
  - intros ((l & Hl & Hall) & [ls Hls] & [pv Hpv]).
    unfold App, startLabel, endLabel, MapView, stationOptions, markers.
    rewrite Hl, Hls, Hpv; cbn [arrayItems bindR].
    destruct (pickedLabel_total _ "Select start" Hs) as [sl ->].
    destruct (pickedLabel_total _ "Select end" He) as [el ->].
    destruct (selectedValue_total _ Hs) as [sv ->].
    destruct (selectedValue_total _ He) as [ev ->].
    destruct (mapR_total optionOf l) as [os ->];
      [intros s Hin; exact (optionOf_total s (proj1 (Hall s Hin)))|].
    destruct (mapRi_total markerOf l) with (i := 0%nat) as [ms ->].
    { intros i s Hin.
      destruct (Hall s Hin) as (Hn & [lat Hlat] & [lon Hlon]).
      exact (markerOf_returns i s lat lon Hn Hlat Hlon). }
    cbn [bindR]; eauto.
Qed.

Lemma page_renders_iff_witness :
  selection_ok (picked sample_world)
  /\ exists v, App sample_world = Ok v.
Proof.
  assert (H : selection_ok (picked sample_world)) by (split; exact I).
  split; [exact H|].
  apply (proj2 (page_renders_iff sample_world H)).
  split; [|split].
  - exists [station_a; station_c; station_b]; split; [reflexivity|].
    intros s [<- | [<- | [<- | []]]];
      (split; [reflexivity|split; eexists; reflexivity]).
  - eexists; reflexivity.
  - eexists; reflexivity.
Defined.

(** X21.  For a station record, the label under which a picked station is
    announced in its dropdown equals the name that its option and its
    popup show exactly when the record has a truthy name, or only one of
    its two identifier fields is truthy, or the two identifier fields are
    equal: the label falls back to the capitalized identifier first, the
    option and the popup to the lower-case one. *)
Theorem label_matches_name (fs : list (string * value)) (placeholder : string) :
  pickedLabel (VObj fs) placeholder = displayName (VObj fs)
  <-> (truthy (lookup "StationName" fs) = true
       \/ truthy (lookup "station_name" fs) = true
       \/ truthy (lookup "station_id" fs) <> truthy (lookup "StationId" fs)
       \/ lookup "station_id" fs = lookup "StationId" fs).
Proof.
  unfold pickedLabel, displayName, stationName, stationId, orElse, jsOr,
    bindR, getProp.
  cbn [truthy].
  destruct (truthy (lookup "StationName" fs)) eqn:H1;
    destruct (truthy (lookup "station_name" fs)) eqn:H2;
    destruct (truthy (lookup "station_id" fs)) eqn:H3;
    destruct (truthy (lookup "StationId" fs)) eqn:H4;
    rewrite ?H1, ?H2, ?H3, ?H4;
    split; intros H;
    try reflexivity;
    try (left; reflexivity);
    try (right; left; reflexivity);
    try (right; right; left; discriminate);
    try (right; right; right; congruence);
    try (destruct H as [H | [H | [H | H]]];
         try discriminate H; try (contradiction H; reflexivity);
         rewrite H; reflexivity).
Qed.

Lemma label_matches_name_witness :
  truthy (lookup "station_name"
            [("station_id", VStr "A"); ("station_name", VStr "Alpha");
             ("StationId", VStr "a-1")]) = true
  /\ pickedLabel (VObj [("station_id", VStr "A"); ("station_name", VStr "Alpha");
                        ("StationId", VStr "a-1")]) "Select start"
     = displayName (VObj [("station_id", VStr "A"); ("station_name", VStr "Alpha");
                          ("StationId", VStr "a-1")]).
Proof.
  split; [reflexivity|].
  apply (proj2 (label_matches_name
                  [("station_id", VStr "A"); ("station_name", VStr "Alpha");
                   ("StationId", VStr "a-1")] "Select start")).
  right; left; reflexivity.
Defined.

(** ** The selection and the button *)

Lemma handle_picked (ev : event) (w w' : World) :
  handle ev w = Some w' -> changes_selection ev = false ->
  picked w' = picked w.
Proof.
  destruct ev; cbn [handle changes_selection]; unfold rendered; intros H Hc;
    try discriminate Hc;
    try (destruct (App w) as [v|]; [|discriminate]);
    try (destruct (outstanding w); [discriminate|]);
    injection H as <-.
  - apply loadStations_keeps_picked.
  - apply onPredict_start_keeps_picked.
  - apply onPredict_resume_keeps_picked.
Qed.

(** X22.  Only the user changes the selection: over any run of events
    without a dropdown change or a popup button, the picked start and end
    are the same at the end as at the beginning.  A station load, also one
    whose new list no longer holds the picked stations, a predict click
    and the settling of a prediction leave them alone. *)
Theorem selection_only_by_user (evs : list event) :
  forall w w',
    run evs w = Some w' ->
    forallb (fun ev => negb (changes_selection ev)) evs = true ->
    picked w' = picked w.
Proof.
  induction evs as [|ev evs IH]; cbn [run forallb]; intros w w' H Hs.
  - injection H as <-; reflexivity.
  - apply andb_prop in Hs; destruct Hs as [Hev Hs].
    destruct (handle ev w) as [w1|] eqn:Hh; [|discriminate].
    rewrite (IH w1 w' H Hs).
    apply (handle_picked ev); [exact Hh|].
    destruct (changes_selection ev); [discriminate|reflexivity].
Qed.

Lemma selection_only_by_user_witness :
  run [StationsSettle (Responded (VArr [])); ClickPredict;
       PredictSettle (Failed (Rejected "timeout"))] picked_world
  = Some (mkWorld (VArr []) false VNull (mkPicked station_a station_b)
            ["Route prediction failed. Check backend /api/predict-route logs."]
            [Rejected "timeout"] [])
  /\ picked (mkWorld (VArr []) false VNull (mkPicked station_a station_b)
               ["Route prediction failed. Check backend /api/predict-route logs."]
               [Rejected "timeout"] [])
     = picked picked_world.
Proof.
  assert (H : run [StationsSettle (Responded (VArr [])); ClickPredict;
                   PredictSettle (Failed (Rejected "timeout"))] picked_world
              = Some (mkWorld (VArr []) false VNull
                        (mkPicked station_a station_b)
                        ["Route prediction failed. Check backend /api/predict-route logs."]
                        [Rejected "timeout"] []))
    by (vm_compute; reflexivity).
  split; [exact H|].
  exact (selection_only_by_user _ _ _ H eq_refl).
Defined.

(** X23.  On every page the application can reach and render, the predict
    button is enabled exactly when a start and an end are picked and no
    prediction is loading, and it reads Predicting... while one is loading
    and Predict Route otherwise. *)
Theorem predict_button (w : World) (v : AppView) :
  reachable w -> App w = Ok v ->
  (predictDisabled v = false
   <-> start (picked w) <> VNull /\ end_ (picked w) <> VNull
       /\ loading w = false)
  /\ predictText v = (if loading w then "Predicting..." else "Predict Route").
Proof.
  intros Hr Hv.
  pose proof (canPredict_selection _ (reachable_selection w Hr)) as Hc.
  rewrite (App_predictDisabled w v Hv).
  split.
  - destruct (truthy (canPredict (picked w))) eqn:Ht; cbn [negb orb].
    + destruct (proj1 Hc eq_refl) as [Hs He].
      split; [intros Hl; repeat split; assumption|intros (_ & _ & Hl); exact Hl].
    + split; [discriminate|].
      intros (Hs & He & _).
      assert (Hf : false = true) by (apply Hc; split; assumption).
      discriminate Hf.
  - unfold App in Hv.
    repeat match type of Hv with
           | bindR ?c _ = _ => destruct c; cbn [bindR] in Hv; [|discriminate]
           end.
    injection Hv as <-; reflexivity.
Qed.

Lemma predict_button_witness :
  reachable waiting_world
  /\ exists v,
       App waiting_world = Ok v
       /\ (predictDisabled v = false
           <-> start (picked waiting_world) <> VNull
               /\ end_ (picked waiting_world) <> VNull
               /\ loading waiting_world = false)
       /\ predictText v = "Predicting...".
Proof.
  assert (H : reachable waiting_world).
  { exists [StationsSettle (Responded sample_stations);
            ChooseStart "A"; MarkerEnd 2; ClickPredict].
    vm_compute; reflexivity. }
  split; [exact H|].
  destruct (App waiting_world) as [v|] eqn:Hv; [|discriminate Hv].
  exists v; split; [reflexivity|].
  exact (predict_button waiting_world v H Hv).
Defined.

(** ** Coordinates that cannot be converted *)

(** A coordinate that cannot be converted to a string is not a coordinate
    that parses to NaN: the marker of its station raises, and the markers
    of the whole list and the page with it. *)
Example unconvertible_coordinate_raises :
  toLat station_d = Throw (TypeError "Cannot convert object to primitive value")
  /\ ~ unparseable station_d
  /\ markers (VArr [station_a; station_d])
     = Throw (TypeError "Cannot convert object to primitive value")
  /\ App (mkWorld (VArr [station_a; station_d]) false VNull
                  (mkPicked VNull VNull) [] [] [])
     = Throw (TypeError "Cannot convert object to primitive value").
Proof.
  split; [reflexivity|]; split; [|split; reflexivity].
  intros (lat & lon & Hlat & _); discriminate Hlat.
Qed.

Lemma findStation_in (id : string) (l : list value) (st : value) :
  findStation id l = Ok st -> st = VUndefined \/ In st l.
Proof.
  induction l as [|s l IH]; cbn [findStation]; intros H.
  - injection H as <-; left; reflexivity.
  - destruct (stationId s) as [sid|]; cbn [bindR] in H; [|discriminate].
    destruct (strictEqStr sid id).
    + injection H as <-; right; left; reflexivity.
    + destruct (IH H) as [-> | Hin]; [left; reflexivity|right; right; exact Hin].
Qed.

Lemma rendered_station_parsed (w : World) (v : AppView) (l : list value)
      (fs : list (string * value)) :
  App w = Ok v -> stations w = VArr l -> In (VObj fs) l ->
  parsedOrNull (VObj fs).
Proof.
  intros Hv Hl Hin.
  destruct (App_parts w v Hv) as (_ & _ & Hms & _).
  unfold markers in Hms; rewrite Hl in Hms; cbn [arrayItems bindR] in Hms.
  destruct (mapRi_each _ _ _ _ _ Hms Hin) as (j & r & Hr).
  destruct (markerOf_ok_coordinates j _ r Hr) as [Hlat Hlon].
  rewrite toLat_object in Hlat; rewrite toLon_object in Hlon.
  split; apply parseFloat_returns_iff; assumption.
Qed.

Lemma chosen_parsed (id : string) (w : World) (v : AppView) (st : value) :
  App w = Ok v -> findIn id (stations w) = Ok st ->
  parsedOrNull (jsOr st VNull).
Proof.
  intros Hv Hf.
  destruct (stations w) as [ | | | | |l| ] eqn:Hl; try discriminate Hf.
  cbn [findIn] in Hf.
  destruct (findStation_found _ _ _ Hf) as [-> | [fs ->]]; [exact I|].
  destruct (findStation_in _ _ _ Hf) as [Hu | Hin]; [discriminate Hu|].
  exact (rendered_station_parsed w v l fs Hv Hl Hin).
Qed.

Lemma markerAt_parsed (w : World) (v : AppView) (i : nat) (m : Marker) :
  App w = Ok v -> markerAt v i = Some m -> parsedOrNull (mk_station m).
Proof.
  intros Hv Hm.
  destruct (App_parts w v Hv) as (_ & _ & Hms & _).
  unfold markerAt in Hm.
  destruct (nth_error (mv_markers (mapView v)) i) as [[m'|]|] eqn:Hn;
    try discriminate.
  injection Hm as ->.
  unfold markers in Hms.
  destruct (stations w) as [ | | | | |l| ] eqn:Hl; try discriminate Hms.
  cbn [arrayItems bindR] in Hms.
  destruct (mapRi_nth _ _ _ _ _ _ Hms Hn) as [s [Hnth Hs]].
  destruct (markerOf_station _ _ _ Hs) as [-> [fs Hfs]].
  rewrite Hfs in *.
  apply (rendered_station_parsed w v l fs Hv Hl).
  exact (nth_error_In _ _ Hnth).
Qed.

Lemma handle_parsed (ev : event) (w w' : World) :
  handle ev w = Some w' ->
  parsedOrNull (start (picked w)) /\ parsedOrNull (end_ (picked w)) ->
  parsedOrNull (start (picked w')) /\ parsedOrNull (end_ (picked w')).
Proof.
  intros H Hok.
  destruct (changes_selection ev) eqn:Hc;
    [|rewrite (handle_picked ev w w' H Hc); exact Hok].
  destruct Hok as [Hs He].
  destruct ev; try discriminate Hc; cbn [handle] in H; unfold rendered in H;
    (destruct (App w) as [v|] eqn:Hv; [|discriminate]);
    try (destruct (markerAt v i) as [m|] eqn:Hm; [|discriminate]);
    injection H as <-.
  - unfold onChangeStart, bind, getStations, lift, setPicked.
    destruct (findIn id (stations w)) as [st|] eqn:Hf; cbn;
      [|split; assumption].
    split; [exact (chosen_parsed id w v st Hv Hf)|exact He].
  - unfold onChangeEnd, bind, getStations, lift, setPicked.
    destruct (findIn id (stations w)) as [st|] eqn:Hf; cbn;
      [|split; assumption].
    split; [exact Hs|exact (chosen_parsed id w v st Hv Hf)].
  - split; [exact (markerAt_parsed w v i m Hv Hm)|exact He].
  - split; [exact Hs|exact (markerAt_parsed w v i m Hv Hm)].
Qed.

(** X24.  In every state the page can reach, each side of the selection
    is null or a station record whose latitude and longitude can be
    converted to a string: the page that offered the station had parsed
    them.  So the two texts that the predict action builds from the
    coordinates of the picked stations are built without raising. *)
Theorem picked_coordinates_convert (w : World) :
  reachable w ->
  parsedOrNull (start (picked w)) /\ parsedOrNull (end_ (picked w)).
Proof.
  intros [evs H].
  assert (G : forall evs w0 w1,
             run evs w0 = Some w1 ->
             parsedOrNull (start (picked w0)) /\ parsedOrNull (end_ (picked w0)) ->
             parsedOrNull (start (picked w1)) /\ parsedOrNull (end_ (picked w1))).
  { clear; induction evs as [|ev evs IH]; cbn [run]; intros w0 w1 H Hok.
    - injection H as <-; exact Hok.
    - destruct (handle ev w0) as [w2|] eqn:Hh; [|discriminate].
      exact (IH w2 w1 H (handle_parsed ev w0 w2 Hh Hok)). }
  apply (G evs initial w H); split; exact I.
Qed.

Lemma picked_coordinates_convert_witness :
  reachable sample_world
  /\ parsedOrNull (start (picked sample_world))
  /\ parsedOrNull (end_ (picked sample_world)).
Proof.
  assert (H : reachable sample_world).
  { exists sample_events; vm_compute; reflexivity. }
  split; [exact H|].
  exact (picked_coordinates_convert sample_world H).
Defined.
